(** * Store/link cleaning scripts: a shallow embedding

    The development follows the two batch scripts of the repository,
    [dedup_por_tienda.py] (pandas pipeline over a sheet) and
    [extraer_tienda_links.py] (openpyxl row loop followed by a pandas
    de-duplication), and states the properties of the pipeline
    "column detection, cleaning, de-duplication, grouping" over them.

    Conventions of the embedding.
    - A Python [str] is a [string]; a character is a code point below 256,
      so the order [String.compare] is Python's code-point order on [str]
      and the whitespace class is [str.isspace] restricted to that range.
    - A pandas frame with the two columns [tienda], [link] is a list of
      rows, each row a pair; the index is not modelled ([reset_index] only
      renumbers it).
    - Library calls ([drop_duplicates], [sort_values], [groupby], regular
      expressions) are given by executable functions that follow the
      documented behaviour of the call as it is used in the scripts. *)

From Stdlib Require Import List String Ascii Bool Arith NArith Lia.
From Stdlib Require Import Sorted Permutation.
Import ListNotations.
Open Scope string_scope.

(* ===================================================================== *)
(** * Python strings *)
(* ===================================================================== *)

Module PyStr.

(** [str.isspace] for one character, code points below 256:
    TAB..CR, FS..US, SPACE, NEL (0x85) and NBSP (0xA0). *)
Definition isspace (c : ascii) : bool :=
  let n := N_of_ascii c in
  ((9 <=? n) && (n <=? 13) || (28 <=? n) && (n <=? 32)
   || (n =? 133) || (n =? 160))%N.

(** [s.lstrip()]: drop the leading whitespace characters. *)
Fixpoint lstrip (s : string) : string :=
  match s with
  | EmptyString => EmptyString
  | String c r => if isspace c then lstrip r else s
  end.

(** [s.rstrip()]: drop the trailing whitespace characters. *)
Fixpoint rstrip (s : string) : string :=
  match s with
  | EmptyString => EmptyString
  | String c r =>
      match rstrip r with
      | EmptyString => if isspace c then EmptyString else String c EmptyString
      | r' => String c r'
      end
  end.

(** [s.strip()]: both ends, nothing in between. *)
Definition strip (s : string) : string := rstrip (lstrip s).

(** Truth value of a [str]: the empty string is falsy. *)
Definition truthy (s : string) : bool :=
  match s with EmptyString => false | String _ _ => true end.

(** Truth value of an optional [str] ([None] is falsy). *)
Definition truthy_opt (o : option string) : bool :=
  match o with None => false | Some s => truthy s end.

(** [s.startswith(p)]. *)
Definition startswith (s p : string) : bool := String.prefix p s.

(** [s.startswith((p1, p2, ...))]: some prefix of the tuple matches. *)
Definition startswith_any (s : string) (ps : list string) : bool :=
  existsb (startswith s) ps.

(** ["sep".join(l)]. *)
Definition join (sep : string) (l : list string) : string :=
  String.concat sep l.

(** [x in l] for a list of strings. *)
Definition mem (x : string) (l : list string) : bool :=
  existsb (String.eqb x) l.

(** Case folding of one character as [re.IGNORECASE] uses it for the
    ASCII letters of a pattern. *)
Definition lower (c : ascii) : ascii :=
  let n := N_of_ascii c in
  if ((65 <=? n) && (n <=? 90))%N then ascii_of_N (n + 32) else c.

(** The literal pattern [p] (given in lower case) matches at the start
    of [s], ignoring case. *)
Fixpoint ci_prefix (p s : string) : bool :=
  match p, s with
  | EmptyString, _ => true
  | String _ _, EmptyString => false
  | String a p', String b s' => Ascii.eqb a (lower b) && ci_prefix p' s'
  end.

(** Vocabulary for statements about [strip]. *)
Fixpoint all_space (s : string) : bool :=
  match s with
  | EmptyString => true
  | String c r => isspace c && all_space r
  end.

Definition head_char (s : string) : option ascii :=
  match s with EmptyString => None | String c _ => Some c end.

Fixpoint last_char (s : string) : option ascii :=
  match s with
  | EmptyString => None
  | String c r => match last_char r with None => Some c | Some d => Some d end
  end.

(** The normalisation that trims and also replaces every run of
    whitespace inside the value by one space, for comparison with what
    the scripts apply to the store column. *)
Fixpoint collapse_from (pending : bool) (s : string) : string :=
  match s with
  | EmptyString => EmptyString
  | String c r =>
      if isspace c then collapse_from true r
      else if pending then String " " (String c (collapse_from false r))
           else String c (collapse_from false r)
  end.

Definition trim_and_collapse (s : string) : string :=
  collapse_from false (lstrip s).

End PyStr.

(* ===================================================================== *)
(** * The pandas operations the scripts use *)
(* ===================================================================== *)

Module Pandas.

(** A row of the two-column frame [tienda], [link]. *)
Definition LinkPair : Type := (string * string)%type.

Definition pair_eqb (a b : LinkPair) : bool :=
  String.eqb (fst a) (fst b) && String.eqb (snd a) (snd b).

(** Order of [sort_values(["tienda", "link"])]: first key, then second. *)
Definition pair_compare (a b : LinkPair) : comparison :=
  match String.compare (fst a) (fst b) with
  | Eq => String.compare (snd a) (snd b)
  | c => c
  end.

Definition pair_leb (a b : LinkPair) : bool :=
  match pair_compare a b with Gt => false | _ => true end.

Definition pair_lt (a b : LinkPair) : Prop := pair_compare a b = Lt.

Definition str_lt (a b : string) : Prop := String.compare a b = Lt.

(** A stable sort: [sort_by leb l] is ascending for [leb], rows that
    compare equal keep their relative order. *)
Section Sort.
Context {A : Type} (leb : A -> A -> bool).

Fixpoint insert_sorted (x : A) (l : list A) : list A :=
  match l with
  | [] => [x]
  | y :: r => if leb x y then x :: l else y :: insert_sorted x r
  end.

Fixpoint sort_by (l : list A) : list A :=
  match l with
  | [] => []
  | x :: r => insert_sorted x (sort_by r)
  end.
End Sort.

(** [Series.unique()] and [drop_duplicates(keep="first")]: the values in
    order of first appearance. [seen] is the table of values met so far. *)
Section Unique.
Context {A : Type} (eqb : A -> A -> bool).

Fixpoint unique_from (seen : list A) (l : list A) : list A :=
  match l with
  | [] => []
  | x :: r =>
      if existsb (eqb x) seen then unique_from seen r
      else x :: unique_from (x :: seen) r
  end.

Definition unique (l : list A) : list A := unique_from [] l.
End Unique.

(** [df.drop_duplicates(subset=["tienda", "link"])]. *)
Definition drop_duplicates (df : list LinkPair) : list LinkPair :=
  unique pair_eqb df.

(** [df.sort_values(["tienda", "link"])]. *)
Definition sort_values (df : list LinkPair) : list LinkPair :=
  sort_by pair_leb df.

(** The de-duplication of both scripts:
    [df.drop_duplicates(subset=["tienda","link"]).sort_values(["tienda","link"])]. *)
Definition dedup (df : list LinkPair) : list LinkPair :=
  sort_values (drop_duplicates df).

(** [df.groupby("tienda")["link"]] with the default [sort=True]: the
    group keys ascending, each with the links of its rows in row order. *)
Definition group_rows (k : string) (df : list LinkPair) : list string :=
  map snd (filter (fun p => String.eqb (fst p) k) df).

(** The group keys: the distinct stores, ascending. *)
Definition group_keys (df : list LinkPair) : list string :=
  sort_by String.leb (unique String.eqb (map fst df)).

(** The groups for a given list of keys. *)
Definition groups_of (ks : list string) (df : list LinkPair)
  : list (string * list string) :=
  map (fun k => (k, group_rows k df)) ks.

Definition groupby (df : list LinkPair) : list (string * list string) :=
  groups_of (group_keys df) df.

(** [.groupby("tienda", as_index=False).first()]: per group the first
    value of the remaining column. *)
Definition first_row (g : string * list string) : list LinkPair :=
  match snd g with
  | [] => []
  | l :: _ => [(fst g, l)]
  end.

Definition groupby_first (df : list LinkPair) : list LinkPair :=
  flat_map first_row (groupby df).

End Pandas.

(* ===================================================================== *)
(** * dedup_por_tienda.py *)
(* ===================================================================== *)

Module DedupPorTienda.
Import PyStr Pandas.

(** A cell of the loaded sheet: missing ([NaN]) or a scalar, kept as the
    text [str(value)] that [astype(str)] produces for it. *)
Inductive cell : Type :=
| NaN
| Val (s : string).

Definition astype_str (c : cell) : string :=
  match c with NaN => "nan" | Val s => s end.

Definition notna (c : cell) : bool :=
  match c with NaN => false | Val _ => true end.

(** The frame read from the sheet: its columns left to right, each a
    label with the cells of the column. [read_excel] makes labels
    distinct. *)
Definition DataFrame : Type := list (string * list cell).

Definition columns (df : DataFrame) : list string := map fst df.

(** ["id_visita (URL extraída)"]; the accented letter is code point 237. *)
Definition COL_URL_EXTRAIDA : string :=
  "id_visita (URL extra" ++ String (ascii_of_N 237) "da)".

Definition PREFER_COLS : list string :=
  [COL_URL_EXTRAIDA; "link"; "id_visita"].

(** [re.compile(r'https?://', re.IGNORECASE)] matched at the start. *)
Definition url_re_at (s : string) : bool :=
  ci_prefix "http://" s || ci_prefix "https://" s.

(** [url_re.search(s)] finds a match. *)
Fixpoint url_re_search (s : string) : bool :=
  match s with
  | EmptyString => false
  | String _ r => url_re_at s || url_re_search r
  end.

(** [df[c].astype(str).str.contains(url_re).any()] *)
Definition column_has_url (vals : list cell) : bool :=
  existsb (fun v => url_re_search (astype_str v)) vals.

Inductive result : Type :=
| Ok (c : string)
| ValueError.

(** First loop of [autodetect_link_column]: [for c in prefer]. *)
Fixpoint first_preferred (cols prefer : list string) : option string :=
  match prefer with
  | [] => None
  | c :: r => if mem c cols then Some c else first_preferred cols r
  end.

(** Second loop: [for c in df.columns]. *)
Fixpoint first_url_column (df : DataFrame) : option string :=
  match df with
  | [] => None
  | (c, vals) :: r => if column_has_url vals then Some c else first_url_column r
  end.

Definition autodetect_link_column (df : DataFrame) (prefer : list string)
  : result :=
  match first_preferred (columns df) prefer with
  | Some c => Ok c
  | None =>
      match first_url_column df with
      | Some c => Ok c
      | None => ValueError
      end
  end.


(** [base]: the rows of [df[[COL_TIENDA, link_col]]], store cell first. *)
Definition Base : Type := list (cell * cell).

(** [base.dropna(subset=["tienda", "link"])] *)
Definition dropna (base : Base) : Base :=
  filter (fun r => notna (fst r) && notna (snd r)) base.

(** Both columns through [.astype(str).str.strip()]. *)
Definition strip_columns (base : Base) : list LinkPair :=
  map (fun r => (strip (astype_str (fst r)), strip (astype_str (snd r)))) base.

(** The rows of [base] whose [link] is not the empty string. *)
Definition nonempty_link (rows : list LinkPair) : list LinkPair :=
  filter (fun p => negb (String.eqb (snd p) EmptyString)) rows.

(** The block under [# Limpieza]. *)
Definition limpieza (base : Base) : list LinkPair :=
  nonempty_link (strip_columns (dropna base)).

(** [pares_unicos] ([reset_index(drop=True)] only renumbers the rows). *)
Definition pares_unicos (base : Base) : list LinkPair :=
  dedup (limpieza base).

Definition tienda_leb {B : Type} (a b : string * B) : bool :=
  String.leb (fst a) (fst b).

(** The value sequence [s.unique()] of every group, before it is joined:
    the groups of [pares.groupby("tienda")["link"]], then
    [sort_values("tienda")]. *)
Definition group_by_store (pares : list LinkPair)
  : list (string * list string) :=
  sort_by tienda_leb
    (map (fun g => (fst g, unique String.eqb (snd g))) (groupby pares)).

Definition LF : string := String (ascii_of_N 10) EmptyString.

(** [links_por_tienda]: columns [tienda], [links_unicos] ([nunique]) and
    [links_unicos_list] (the unique links joined by a line feed). *)
Definition links_por_tienda (pares : list LinkPair)
  : list (string * (nat * string)) :=
  sort_by tienda_leb
    (map (fun g => (fst g,
                    (List.length (unique String.eqb (snd g)),
                     join LF (unique String.eqb (snd g)))))
         (groupby pares)).

(** [uno_por_tienda] when [ONE_PER_STORE] is set. *)
Definition uno_por_tienda (pares : list LinkPair) : list LinkPair :=
  groupby_first (sort_values pares).

Definition COL_TIENDA : string := "tienda".

Definition ONE_PER_STORE : bool := true.

(** [df[c]] for a label [c]; [main] only looks up labels it has found among
    the columns, a missing label (a [KeyError] in pandas) gives no cells. *)
Definition column (df : DataFrame) (c : string) : list cell :=
  match find (fun col => String.eqb (fst col) c) df with
  | Some col => snd col
  | None => []
  end.

(** [len(df)]: the number of rows, read on the first column. *)
Definition nrows (df : DataFrame) : nat :=
  match df with
  | [] => 0
  | (_, vals) :: _ => List.length vals
  end.

(** [df[[COL_TIENDA, link_col]]], row by row. *)
Definition select_base (df : DataFrame) (link_col : string) : Base :=
  combine (column df COL_TIENDA) (column df link_col).

(** The sheet [resumen] without its floating-point column
    [promedio_links_unicos_por_tienda]. *)
Record Resumen : Type := {
  filas_originales : nat;
  n_pares_unicos : nat;
  tiendas_con_al_menos_un_link : nat;
  columna_usada_para_link : string;
  columna_tienda : string
}.

(** The workbook that [main] writes. *)
Record Libro : Type := {
  hoja_pares_unicos : list LinkPair;
  hoja_links_por_tienda : list (string * (nat * string));
  hoja_resumen : Resumen;
  hoja_1link_por_tienda : option (list LinkPair)
}.

(** The two [ValueError]s of [main], told apart by their message. *)
Inductive main_error : Type :=
| NoLinkColumn
| NoTiendaColumn.

(** [main] from the loaded sheet on: detection of the link column, check
    of the store column, cleaning, de-duplication, the three views. *)
Definition main (df : DataFrame) : Libro + main_error :=
  match autodetect_link_column df PREFER_COLS with
  | ValueError => inr NoLinkColumn
  | Ok link_col =>
      if negb (mem COL_TIENDA (columns df)) then inr NoTiendaColumn
      else
        let pares := pares_unicos (select_base df link_col) in
        let grupos := links_por_tienda pares in
        inl {| hoja_pares_unicos := pares;
               hoja_links_por_tienda := grupos;
               hoja_resumen :=
                 {| filas_originales := nrows df;
                    n_pares_unicos := List.length pares;
                    tiendas_con_al_menos_un_link := List.length grupos;
                    columna_usada_para_link := link_col;
                    columna_tienda := COL_TIENDA |};
               hoja_1link_por_tienda :=
                 if ONE_PER_STORE then Some (uno_por_tienda pares) else None |}
  end.

(** The two-column frame whose cells hold the texts of the given pairs. *)
Definition as_cells (rows : list LinkPair) : Base :=
  map (fun p => (Val (fst p), Val (snd p))) rows.

End DedupPorTienda.

(* ===================================================================== *)
(** * extraer_tienda_links.py *)
(* ===================================================================== *)

Module ExtraerTiendaLinks.
Import PyStr Pandas.

(** A cell value as openpyxl hands it over: [None], a [str], or another
    scalar, of which only [str(v)] and [bool(v)] are used. *)
Inductive pyvalue : Type :=
| VNone
| VStr (s : string)
| VOther (text : string) (truth : bool).

Definition value_truthy (v : pyvalue) : bool :=
  match v with
  | VNone => false
  | VStr s => truthy s
  | VOther _ b => b
  end.

Definition str_of (v : pyvalue) : string :=
  match v with
  | VNone => "None"
  | VStr s => s
  | VOther t _ => t
  end.

Record Hyperlink : Type := { target : option string }.

Record Cell : Type := { value : pyvalue; hyperlink : option Hyperlink }.

Definition URL_PREFIX : string :=
  "https://services.traxretail.com/trax-one/sindicatedmx/explore/visit/".

(** [[0-9a-fA-F]] *)
Definition is_hex (c : ascii) : bool :=
  let n := N_of_ascii c in
  ((48 <=? n) && (n <=? 57) || (65 <=? n) && (n <=? 70)
   || (97 <=? n) && (n <=? 102))%N.

(** [[0-9a-fA-F]{n}] at the start of [s]; the rest of [s] on success. *)
Fixpoint hex_run (n : nat) (s : string) : option string :=
  match n with
  | O => Some s
  | S m =>
      match s with
      | String c r => if is_hex c then hex_run m r else None
      | EmptyString => None
      end
  end.

Fixpoint all_hex (s : string) : bool :=
  match s with
  | EmptyString => true
  | String c r => is_hex c && all_hex r
  end.

(** [n] hexadecimal digits. *)
Definition hex_group (n : nat) (h : string) : Prop :=
  String.length h = n /\ all_hex h = true.

Definition dash (s : string) : option string :=
  match s with
  | String c r => if Ascii.eqb c "-" then Some r else None
  | EmptyString => None
  end.

Definition bind {A B : Type} (o : option A) (f : A -> option B) : option B :=
  match o with Some a => f a | None => None end.

Notation "x <- c ;; k" := (bind c (fun x => k))
  (at level 61, c at next level, right associativity).

(** [GUID_RE.fullmatch(s)]: groups of 8, 4, 4, 4 and 12 hexadecimal
    digits separated by dashes, and nothing else. *)
Definition GUID_RE_fullmatch (s : string) : bool :=
  match (r1 <- hex_run 8 s ;; r2 <- dash r1 ;;
         r3 <- hex_run 4 r2 ;; r4 <- dash r3 ;;
         r5 <- hex_run 4 r4 ;; r6 <- dash r5 ;;
         r7 <- hex_run 4 r6 ;; r8 <- dash r7 ;;
         hex_run 12 r8) with
  | Some EmptyString => true
  | _ => false
  end.

Definition DQUOTE : ascii := ascii_of_N 34.

(** The text up to the next double quote, when there is one. *)
Fixpoint until_quote (s : string) : option string :=
  match s with
  | EmptyString => None
  | String c r =>
      if Ascii.eqb c DQUOTE then Some EmptyString
      else option_map (String c) (until_quote r)
  end.

(** The inside of the group, [https?://] and then one or more
    characters other than the double quote, over the whole of [u],
    ignoring case. *)
Definition url_body (u : string) : bool :=
  ci_prefix "http://" u && Nat.ltb 7 (String.length u)
  || ci_prefix "https://" u && Nat.ltb 8 (String.length u).

(** The pattern of [extraer_url_de_formula] (a double quote, the group,
    a double quote) tried just after an opening quote: group 1 when it
    matches. *)
Definition quoted_url_at (r : string) : option string :=
  match until_quote r with
  | Some u => if url_body u then Some u else None
  | None => None
  end.

(** [extraer_url_de_formula]: [re.search] scans from the left and
    returns group 1 of the first match. *)
Fixpoint extraer_url_de_formula (s : string) : option string :=
  match s with
  | EmptyString => None
  | String c r =>
      if Ascii.eqb c DQUOTE then
        match quoted_url_at r with
        | Some u => Some u
        | None => extraer_url_de_formula r
        end
      else extraer_url_de_formula r
  end.

(** Branch a) of the loop body. *)
Definition step_hyperlink (celda : Cell) (url : option string)
  : option string :=
  match hyperlink celda with
  | Some h =>
      match target h with
      | Some t => if truthy t then Some t else url
      | None => url
      end
  | None => url
  end.

(** Branch b). *)
Definition step_formula (celda : Cell) (url : option string)
  : option string :=
  match value celda with
  | VStr v =>
      if negb (truthy_opt url)
         && startswith_any v ["=HIPERVINCULO("; "=HYPERLINK("]
      then extraer_url_de_formula v else url
  | _ => url
  end.

(** Branch c). *)
Definition step_guid (celda : Cell) (url : option string) : option string :=
  match value celda with
  | VStr v =>
      if negb (truthy_opt url) && GUID_RE_fullmatch (strip v)
      then Some (URL_PREFIX ++ strip v) else url
  | _ => url
  end.

(** The value of [url] after the three branches, starting from [None]. *)
Definition extract_url (celda : Cell) : option string :=
  step_guid celda (step_formula celda (step_hyperlink celda None)).

(** The precedence written as one decision: the hyperlink target when
    there is one, else the URL of a hyperlink formula, else the URL built
    from a GUID, else nothing. *)
Definition url_by_precedence (celda : Cell) : option string :=
  match step_hyperlink celda None with
  | Some t => Some t
  | None =>
      match value celda with
      | VStr v =>
          if startswith_any v ["=HIPERVINCULO("; "=HYPERLINK("]
          then extraer_url_de_formula v
          else if GUID_RE_fullmatch (strip v)
               then Some (URL_PREFIX ++ strip v)
               else None
      | _ => None
      end
  end.

(** [u] is a quoted URL standing at the start of [rest], the text that
    follows an opening double quote. *)
Definition quoted_url_here (rest u : string) : Prop :=
  exists post, rest = u ++ String DQUOTE post
               /\ until_quote u = None /\ url_body u = true.

(** [u] is the first quoted URL of [s]: it stands after the opening quote
    at offset [length pre], and no opening quote before it starts one. *)
Definition first_quoted_url (s u : string) : Prop :=
  exists pre rest,
    s = pre ++ String DQUOTE rest
    /\ quoted_url_here rest u
    /\ forall pre' rest' u',
         s = pre' ++ String DQUOTE rest' -> quoted_url_here rest' u' ->
         String.length pre <= String.length pre'.

Definition no_quoted_url (s : string) : Prop :=
  forall pre rest u, s = pre ++ String DQUOTE rest -> ~ quoted_url_here rest u.

(** One line of the diagnostic sheet. *)
Record Diag : Type := {
  diag_tienda : pyvalue;
  valor_celda_L : pyvalue;
  hyperlink_target : option string;
  url_detectada : option string
}.

(** The two lists the loop appends to. *)
Record Acc : Type := { pares : list LinkPair; diag : list Diag }.

(** A sheet row as the loop reads it: the store value and the link cell. *)
Definition Row : Type := (pyvalue * Cell)%type.

(** What one row appends to [pares]. *)
Definition row_pairs (row : Row) : list LinkPair :=
  let tienda := fst row in
  match extract_url (snd row) with
  | Some url =>
      if value_truthy tienda && truthy url
      then [(strip (str_of tienda), strip url)] else []
  | None => []
  end.

Definition loop_body (acc : Acc) (row : Row) : Acc :=
  let celda := snd row in
  {| pares := (pares acc ++ row_pairs row)%list;
     diag := (diag acc ++
       [{| diag_tienda := fst row;
           valor_celda_L := value celda;
           hyperlink_target :=
             match hyperlink celda with Some h => target h | None => None end;
           url_detectada := extract_url celda |}])%list |}.

Definition run_loop (rows : list Row) : Acc :=
  fold_left loop_body rows {| pares := []; diag := [] |}.

(** [df_unique] *)
Definition df_unique (rows : list Row) : list LinkPair :=
  dedup (pares (run_loop rows)).

(** [agrupado[t].append(l)] on a [defaultdict(list)], keys kept in
    insertion order. *)
Fixpoint dd_append (d : list (string * list string)) (t l : string)
  : list (string * list string) :=
  match d with
  | [] => [(t, [l])]
  | (k, ls) :: r =>
      if String.eqb k t then (k, (ls ++ [l])%list) :: r
      else (k, ls) :: dd_append r t l
  end.

Definition agrupado (unique_rows : list LinkPair)
  : list (string * list string) :=
  fold_left (fun d p => dd_append d (fst p) (snd p)) unique_rows [].

(** Comparison of two lists of [str] and of two [(str, list)] tuples, as
    [sorted] applies it to [agrupado.items()]. *)
Fixpoint list_compare (a b : list string) : comparison :=
  match a, b with
  | [], [] => Eq
  | [], _ :: _ => Lt
  | _ :: _, [] => Gt
  | x :: a', y :: b' =>
      match String.compare x y with
      | Eq => list_compare a' b'
      | c => c
      end
  end.

Definition item_leb (a b : string * list string) : bool :=
  match String.compare (fst a) (fst b) with
  | Lt => true
  | Gt => false
  | Eq => match list_compare (snd a) (snd b) with Gt => false | _ => true end
  end.

(** [sorted(agrupado.items())] *)
Definition sorted_items (unique_rows : list LinkPair)
  : list (string * list string) :=
  sort_by item_leb (agrupado unique_rows).

(** [df_group]: one row per store with its links joined by line feeds. *)
Definition df_group (unique_rows : list LinkPair) : list (string * string) :=
  map (fun it => (fst it, join (String (ascii_of_N 10) EmptyString) (snd it)))
      (sorted_items unique_rows).


(** No character of the text is whitespace. *)
Fixpoint none_space (s : string) : bool :=
  match s with
  | EmptyString => true
  | String c r => negb (isspace c) && none_space r
  end.

End ExtraerTiendaLinks.

(* ===================================================================== *)
(** * Comparison of two store sets *)
(* ===================================================================== *)

Module SetComparator.
Import PyStr Pandas.

(** Modelled from the spec: a finite set of store names (section 4.4),
    given by an enumeration of its members; membership is [In]. *)
Definition StoreSet : Type := list string.

(** Modelled from the spec: the [ComparisonResult] of section 3. *)
Record ComparisonResult : Type := {
  matched : list string;
  onlyA : list string;
  onlyB : list string
}.

(** Modelled from the spec: "a lexicographically sorted sequence with no
    duplicates" holding the members of [l]. *)
Definition sorted_set (l : list string) : list string :=
  sort_by String.leb (unique String.eqb l).

(** Modelled from the spec: the function [compare] of the interactive
    application, whose code is not among the sources (only the header
    comment of [app_links.py] is). Section 4.4: matched = A ∩ B,
    onlyA = A − B, onlyB = B − A, each a lexicographically sorted
    sequence without duplicates. *)
Definition compare (A B : StoreSet) : ComparisonResult :=
  {| matched := sorted_set (filter (fun x => mem x B) A);
     onlyA := sorted_set (filter (fun x => negb (mem x B)) A);
     onlyB := sorted_set (filter (fun x => negb (mem x A)) B) |}.

End SetComparator.

(* ===================================================================== *)
(** * Facts about the orders *)
(* ===================================================================== *)

Import PyStr Pandas.
Open Scope list_scope.

Lemma ascii_compare_refl (a : ascii) : Ascii.compare a a = Eq.
Proof. unfold Ascii.compare. apply N.compare_refl. Qed.

Lemma ascii_compare_lt_trans (a b c : ascii) :
  Ascii.compare a b = Lt -> Ascii.compare b c = Lt -> Ascii.compare a c = Lt.
Proof.
  unfold Ascii.compare. rewrite !N.compare_lt_iff. apply N.lt_trans.
Qed.

Lemma str_compare_refl (s : string) : String.compare s s = Eq.
Proof.
  induction s as [|a s IH]; simpl; [reflexivity|].
  now rewrite ascii_compare_refl.
Qed.

Lemma str_compare_eq (s t : string) : String.compare s t = Eq <-> s = t.
Proof.
  split; [apply String.compare_eq_iff|].
  intros ->. apply str_compare_refl.
Qed.

Lemma str_compare_gt_lt (s t : string) :
  String.compare s t = Gt <-> String.compare t s = Lt.
Proof.
  rewrite (String.compare_antisym t s).
  destruct (String.compare s t); simpl; split; congruence.
Qed.

Lemma str_lt_trans (s t u : string) : str_lt s t -> str_lt t u -> str_lt s u.
Proof.
  unfold str_lt. revert t u.
  induction s as [|a s IH]; intros [|b t] [|c u]; simpl; try congruence.
  destruct (Ascii.compare a b) eqn:Eab; try discriminate.
  - apply Ascii.compare_eq_iff in Eab. subst b.
    destruct (Ascii.compare a c); try congruence. apply IH.
  - intros _. destruct (Ascii.compare b c) eqn:Ebc; try discriminate.
    + apply Ascii.compare_eq_iff in Ebc. subst c. now rewrite Eab.
    + intros _. now rewrite (ascii_compare_lt_trans _ _ _ Eab Ebc).
Qed.

Lemma str_lt_irrefl (s : string) : ~ str_lt s s.
Proof. unfold str_lt. rewrite str_compare_refl. discriminate. Qed.

Lemma str_leb_iff (s t : string) :
  String.leb s t = true <-> str_lt s t \/ s = t.
Proof.
  unfold String.leb, str_lt. rewrite <- str_compare_eq.
  destruct (String.compare s t); split;
    solve [ auto | discriminate | intros [H | H]; discriminate H ].
Qed.

Lemma str_leb_refl (s : string) : String.leb s s = true.
Proof. apply str_leb_iff. now right. Qed.

Lemma str_leb_trans (s t u : string) :
  String.leb s t = true -> String.leb t u = true -> String.leb s u = true.
Proof.
  rewrite !str_leb_iff. intros [H1 | ->] [H2 | ->]; auto.
  left. eapply str_lt_trans; eauto.
Qed.

Lemma pair_eqb_eq (a b : LinkPair) : pair_eqb a b = true <-> a = b.
Proof.
  destruct a as [a1 a2], b as [b1 b2]. unfold pair_eqb. simpl.
  rewrite andb_true_iff, !String.eqb_eq. split.
  - intros [-> ->]. reflexivity.
  - intros H. inversion H. auto.
Qed.

(** The order of the two-key sort is the lexicographic one. *)
Lemma pair_lt_lex (a b : LinkPair) :
  pair_lt a b <->
  str_lt (fst a) (fst b) \/ (fst a = fst b /\ str_lt (snd a) (snd b)).
Proof.
  unfold pair_lt, pair_compare, str_lt.
  destruct (String.compare (fst a) (fst b)) eqn:E.
  - apply str_compare_eq in E. split; [now right|].
    intros [H | [_ H]]; [discriminate | exact H].
  - split; auto.
  - split; [discriminate|]. intros [H | [H _]]; [discriminate|].
    apply str_compare_eq in H. congruence.
Qed.

Lemma pair_compare_eq (a b : LinkPair) : pair_compare a b = Eq <-> a = b.
Proof.
  destruct a as [a1 a2], b as [b1 b2]. unfold pair_compare. simpl. split.
  - destruct (String.compare a1 b1) eqn:E; try discriminate.
    intros H. apply str_compare_eq in E, H. congruence.
  - intros H. inversion H. now rewrite !str_compare_refl.
Qed.

Lemma pair_lt_trans (a b c : LinkPair) : pair_lt a b -> pair_lt b c -> pair_lt a c.
Proof.
  rewrite !pair_lt_lex.
  intros [H1 | [E1 H1]] [H2 | [E2 H2]].
  - left. eapply str_lt_trans; eauto.
  - left. now rewrite <- E2.
  - left. now rewrite E1.
  - right. split; [congruence|]. eapply str_lt_trans; eauto.
Qed.

Lemma pair_leb_iff (a b : LinkPair) :
  pair_leb a b = true <-> pair_lt a b \/ a = b.
Proof.
  unfold pair_leb, pair_lt. rewrite <- pair_compare_eq.
  destruct (pair_compare a b); split;
    solve [ auto | discriminate | intros [H | H]; discriminate H ].
Qed.

Lemma pair_compare_gt_lt (a b : LinkPair) :
  pair_compare a b = Gt -> pair_lt b a.
Proof.
  intros H. apply pair_lt_lex. unfold pair_compare in H.
  destruct (String.compare (fst a) (fst b)) eqn:E; try discriminate.
  - apply str_compare_eq in E. right. split; [congruence|].
    now apply str_compare_gt_lt.
  - left. now apply str_compare_gt_lt.
Qed.

Lemma pair_leb_total (a b : LinkPair) :
  pair_leb a b = true \/ pair_leb b a = true.
Proof.
  destruct (pair_leb a b) eqn:E; [now left|right].
  apply pair_leb_iff. left. apply pair_compare_gt_lt.
  unfold pair_leb in E. destruct (pair_compare a b); congruence.
Qed.

Lemma pair_leb_trans (a b c : LinkPair) :
  pair_leb a b = true -> pair_leb b c = true -> pair_leb a c = true.
Proof.
  rewrite !pair_leb_iff. intros [H1 | ->] [H2 | ->]; auto.
  left. eapply pair_lt_trans; eauto.
Qed.

Lemma pair_lt_irrefl (a : LinkPair) : ~ pair_lt a a.
Proof.
  unfold pair_lt. intros H.
  assert (E : pair_compare a a = Eq) by now apply pair_compare_eq.
  congruence.
Qed.

(* ===================================================================== *)
(** * Facts about the stable sort *)
(* ===================================================================== *)

Section SortFacts.
Context {A : Type} (leb : A -> A -> bool).

Let le (a b : A) : Prop := leb a b = true.

Lemma insert_sorted_perm (x : A) (l : list A) :
  Permutation (x :: l) (insert_sorted leb x l).
Proof.
  induction l as [|y r IH]; simpl; [reflexivity|].
  destruct (leb x y); [reflexivity|].
  rewrite perm_swap. now apply perm_skip.
Qed.

Lemma sort_by_perm (l : list A) : Permutation l (sort_by leb l).
Proof.
  induction l as [|x r IH]; simpl; [reflexivity|].
  rewrite <- insert_sorted_perm. now apply perm_skip.
Qed.

Lemma sort_by_In (l : list A) (x : A) : In x (sort_by leb l) <-> In x l.
Proof.
  split; apply Permutation_in;
    [symmetry|]; apply sort_by_perm.
Qed.

Lemma sort_by_NoDup (l : list A) : NoDup l -> NoDup (sort_by leb l).
Proof. apply Permutation_NoDup, sort_by_perm. Qed.

(** On a list that is already ascending the sort changes nothing. *)
Lemma insert_sorted_head (x : A) (l : list A) :
  Forall (le x) l -> insert_sorted leb x l = x :: l.
Proof.
  destruct l as [|y r]; simpl; [reflexivity|].
  intros H. inversion H as [|? ? Hy _]; subst.
  unfold le in Hy. now rewrite Hy.
Qed.

Lemma sort_by_sorted_id (l : list A) :
  StronglySorted le l -> sort_by leb l = l.
Proof.
  induction 1 as [|x r Hs IH Hx]; simpl; [reflexivity|].
  rewrite IH. now apply insert_sorted_head.
Qed.

Hypothesis leb_total : forall a b, leb a b = true \/ leb b a = true.
Hypothesis leb_trans :
  forall a b c, leb a b = true -> leb b c = true -> leb a c = true.

Lemma insert_sorted_sorted (x : A) (l : list A) :
  StronglySorted le l -> StronglySorted le (insert_sorted leb x l).
Proof.
  induction 1 as [|y r Hs IH Hy]; simpl.
  - constructor; constructor.
  - destruct (leb x y) eqn:E.
    + constructor; [now constructor|].
      constructor; [exact E|].
      eapply Forall_impl; [|exact Hy].
      intros z Hz. eapply leb_trans; eauto.
    + constructor; [exact IH|].
      assert (Hyx : le y x).
      { destruct (leb_total x y) as [H|H]; [congruence | exact H]. }
      rewrite Forall_forall in *. intros z Hz.
      apply (Permutation_in _ (Permutation_sym (insert_sorted_perm x r))) in Hz.
      destruct Hz as [<- | Hz]; auto.
Qed.

Lemma sort_by_sorted (l : list A) : StronglySorted le (sort_by leb l).
Proof.
  induction l as [|x r IH]; simpl; [constructor|].
  now apply insert_sorted_sorted.
Qed.

Lemma sort_by_idem (l : list A) : sort_by leb (sort_by leb l) = sort_by leb l.
Proof. apply sort_by_sorted_id, sort_by_sorted. Qed.

End SortFacts.

(** Sorting the image of a list under [f] with an order that agrees, on the
    members of the list, with the order used on the list itself. *)
Lemma sort_by_map {A B : Type} (lebA : A -> A -> bool) (lebB : B -> B -> bool)
      (f : A -> B) (l : list A) :
  (forall a b, In a l -> In b l -> a <> b -> lebB (f a) (f b) = lebA a b) ->
  NoDup l ->
  sort_by lebB (map f l) = map f (sort_by lebA l).
Proof.
  induction l as [|x r IH]; simpl; intros Hext Hnd; [reflexivity|].
  inversion Hnd as [|? ? Hx Hr]; subst.
  rewrite IH by auto.
  assert (Hin : forall z, In z (sort_by lebA r) -> In z r)
    by (intro z; apply sort_by_In).
  assert (Hx' : ~ In x (sort_by lebA r)) by (intro H; apply Hx, Hin, H).
  clear IH Hnd Hr.
  induction (sort_by lebA r) as [|y s IHs]; simpl; [reflexivity|].
  rewrite Hext; [| now left | right; apply Hin; now left
                 | intros ->; apply Hx'; now left ].
  destruct (lebA x y); simpl; [reflexivity|].
  f_equal. apply IHs.
  - intros z Hz. apply Hin. now right.
  - intros H. apply Hx'. now right.
Qed.

(** From "ascending without repetition" to "strictly ascending". *)
Lemma sorted_strict {A : Type} (le lt : A -> A -> Prop) (l : list A) :
  (forall a b, le a b -> lt a b \/ a = b) ->
  StronglySorted le l -> NoDup l -> StronglySorted lt l.
Proof.
  intros Hle. induction 1 as [|x r Hs IH Hx]; intros Hnd; constructor.
  - apply IH. now inversion Hnd.
  - inversion Hnd as [|? ? Hnx _]; subst.
    rewrite Forall_forall in *. intros y Hy.
    destruct (Hle x y (Hx y Hy)) as [H | ->]; [exact H | contradiction].
Qed.

Lemma strict_sorted_NoDup {A : Type} (lt : A -> A -> Prop) (l : list A) :
  (forall a, ~ lt a a) -> StronglySorted lt l -> NoDup l.
Proof.
  intros Hirr. induction 1 as [|x r Hs IH Hx]; constructor; auto.
  intros Hin. rewrite Forall_forall in Hx. exact (Hirr x (Hx x Hin)).
Qed.

Lemma strict_sorted_weaken {A : Type} (lt le : A -> A -> Prop) (l : list A) :
  (forall a b, lt a b -> le a b) -> StronglySorted lt l -> StronglySorted le l.
Proof.
  intros Himp. induction 1 as [|x r Hs IH Hx]; constructor; auto.
  eapply Forall_impl; [|exact Hx]. auto.
Qed.

(* ===================================================================== *)
(** * Facts about first-occurrence de-duplication *)
(* ===================================================================== *)

Section UniqueFacts.
Context {A : Type} (eqb : A -> A -> bool).
Hypothesis eqb_eq : forall a b, eqb a b = true <-> a = b.

Lemma existsb_eqb (x : A) (l : list A) : existsb (eqb x) l = true <-> In x l.
Proof.
  rewrite existsb_exists. split.
  - intros [y [Hy E]]. apply eqb_eq in E. now subst.
  - intros H. exists x. split; [exact H | now apply eqb_eq].
Qed.

Lemma existsb_eqb_false (x : A) (l : list A) :
  existsb (eqb x) l = false <-> ~ In x l.
Proof.
  rewrite <- existsb_eqb. destruct (existsb (eqb x) l); split; congruence.
Qed.

Lemma unique_from_In (seen l : list A) (x : A) :
  In x (unique_from eqb seen l) <-> In x l /\ ~ In x seen.
Proof.
  revert seen. induction l as [|y r IH]; intros seen; simpl; [tauto|].
  destruct (existsb (eqb y) seen) eqn:E.
  - apply existsb_eqb in E. rewrite IH. split.
    + tauto.
    + intros [[-> | H] Hn]; [contradiction | tauto].
  - apply existsb_eqb_false in E. simpl. rewrite IH. simpl. split.
    + intros [-> | [H Hn]]; [tauto|]. split; [tauto|]. intros Hs. apply Hn. now right.
    + intros [[-> | H] Hn]; [now left|].
      destruct (eqb y x) eqn:Eyx.
      * apply eqb_eq in Eyx. now left.
      * right. split; [exact H|]. intros [-> | Hs]; [|contradiction].
        assert (eqb x x = true) by now apply eqb_eq. congruence.
Qed.

Lemma unique_In (l : list A) (x : A) : In x (unique eqb l) <-> In x l.
Proof. unfold unique. rewrite unique_from_In. simpl. tauto. Qed.

Lemma unique_from_NoDup (seen l : list A) : NoDup (unique_from eqb seen l).
Proof.
  revert seen. induction l as [|y r IH]; intros seen; simpl; [constructor|].
  destruct (existsb (eqb y) seen); [apply IH|].
  constructor; [|apply IH].
  rewrite unique_from_In. intros [_ H]. apply H. now left.
Qed.

Lemma unique_NoDup (l : list A) : NoDup (unique eqb l).
Proof. apply unique_from_NoDup. Qed.

(** A list without repetition is left as it is. *)
Lemma unique_from_id (seen l : list A) :
  NoDup l -> (forall x, In x l -> ~ In x seen) -> unique_from eqb seen l = l.
Proof.
  revert seen. induction l as [|y r IH]; intros seen Hnd Hs; simpl; [reflexivity|].
  inversion Hnd as [|? ? Hy Hr]; subst.
  assert (E : existsb (eqb y) seen = false).
  { apply existsb_eqb_false. apply Hs. now left. }
  rewrite E. f_equal. apply IH; [exact Hr|].
  intros x Hx [<- | H]; [contradiction|].
  apply (Hs x); [now right | exact H].
Qed.

Lemma unique_id (l : list A) : NoDup l -> unique eqb l = l.
Proof. intros H. apply unique_from_id; auto. Qed.

(** Appending one value: it is kept exactly when it is new. *)
Lemma unique_from_snoc (seen l : list A) (x : A) :
  unique_from eqb seen (l ++ [x]) =
  unique_from eqb seen l ++
    (if existsb (eqb x) (seen ++ l) then [] else [x]).
Proof.
  revert seen. induction l as [|y r IH]; intros seen; simpl.
  - rewrite app_nil_r. now destruct (existsb (eqb x) seen).
  - assert (Hx : forall s, existsb (eqb x) (s ++ y :: r)
                           = existsb (eqb x) ((y :: s) ++ r)).
    { intros s. simpl. rewrite !existsb_app. simpl.
      destruct (eqb x y), (existsb (eqb x) s); reflexivity. }
    destruct (existsb (eqb y) seen) eqn:E.
    + rewrite IH. f_equal. rewrite Hx. simpl.
      destruct (eqb x y) eqn:Exy; [|reflexivity].
      apply eqb_eq in Exy. subst y.
      rewrite existsb_app, E. reflexivity.
    + rewrite IH. simpl. now rewrite Hx.
Qed.

Lemma unique_snoc (l : list A) (x : A) :
  unique eqb (l ++ [x]) =
  unique eqb l ++ (if existsb (eqb x) l then [] else [x]).
Proof. unfold unique. now rewrite unique_from_snoc. Qed.

End UniqueFacts.

(** Two strictly ascending lists with the same members are the same list. *)
Lemma strict_sorted_unique {A : Type} (lt : A -> A -> Prop) :
  (forall a, ~ lt a a) ->
  (forall a b c, lt a b -> lt b c -> lt a c) ->
  forall l1 l2 : list A,
    StronglySorted lt l1 -> StronglySorted lt l2 ->
    (forall x, In x l1 <-> In x l2) -> l1 = l2.
Proof.
  intros Hirr Htr l1.
  induction l1 as [|x r1 IH]; intros [|y r2] H1 H2 Hmem.
  - reflexivity.
  - exfalso. apply (proj2 (Hmem y)). now left.
  - exfalso. apply (proj1 (Hmem x)). now left.
  - inversion H1 as [|? ? Hs1 Hx]; inversion H2 as [|? ? Hs2 Hy]; subst.
    rewrite Forall_forall in Hx, Hy.
    assert (E : x = y).
    { destruct (proj1 (Hmem x) (or_introl eq_refl)) as [E | Hin]; [now symmetry|].
      destruct (proj2 (Hmem y) (or_introl eq_refl)) as [E | Hin']; [exact E|].
      exfalso. apply (Hirr x). eapply Htr; [apply Hx, Hin' | apply Hy, Hin]. }
    subst y. f_equal. apply IH; auto.
    intros z. split; intros Hz.
    + destruct (proj1 (Hmem z) (or_intror Hz)) as [<- | H]; [|exact H].
      exfalso. exact (Hirr x (Hx x Hz)).
    + destruct (proj2 (Hmem z) (or_intror Hz)) as [<- | H]; [|exact H].
      exfalso. exact (Hirr x (Hy x Hz)).
Qed.

(* ===================================================================== *)
(** * De-duplication of the pairs *)
(* ===================================================================== *)

Lemma drop_duplicates_In (P : list LinkPair) (p : LinkPair) :
  In p (drop_duplicates P) <-> In p P.
Proof. apply unique_In, pair_eqb_eq. Qed.

Lemma drop_duplicates_NoDup (P : list LinkPair) : NoDup (drop_duplicates P).
Proof. apply unique_NoDup, pair_eqb_eq. Qed.

Lemma sort_values_sorted (P : list LinkPair) :
  StronglySorted (fun a b => pair_leb a b = true) (sort_values P).
Proof. apply sort_by_sorted; [apply pair_leb_total | apply pair_leb_trans]. Qed.

Lemma dedup_In (P : list LinkPair) (p : LinkPair) : In p (dedup P) <-> In p P.
Proof.
  unfold dedup, sort_values. rewrite sort_by_In. apply drop_duplicates_In.
Qed.

Lemma dedup_NoDup (P : list LinkPair) : NoDup (dedup P).
Proof. apply sort_by_NoDup, drop_duplicates_NoDup. Qed.

Lemma dedup_sorted (P : list LinkPair) : StronglySorted pair_lt (dedup P).
Proof.
  apply sorted_strict with (le := fun a b => pair_leb a b = true).
  - intros a b. apply pair_leb_iff.
  - apply sort_values_sorted.
  - apply dedup_NoDup.
Qed.

Lemma dedup_sorted_leb (P : list LinkPair) :
  StronglySorted (fun a b => pair_leb a b = true) (dedup P).
Proof. apply sort_values_sorted. Qed.

(** [dedup P] is the only strictly ascending enumeration of the rows of [P]. *)
Lemma dedup_canonical (P l : list LinkPair) :
  StronglySorted pair_lt l -> (forall p, In p l <-> In p P) -> l = dedup P.
Proof.
  intros Hs Hmem.
  apply (strict_sorted_unique pair_lt pair_lt_irrefl pair_lt_trans);
    [exact Hs | apply dedup_sorted |].
  intros p. rewrite dedup_In. apply Hmem.
Qed.

(** C1. For every table of (store, link) pairs, [dedup] returns the pairs
    in strictly ascending lexicographic order of (store, link): a row is in
    the result exactly when it is in the table, and no row is repeated. On
    the rows (Store A, http://x), (Store A, http://x), (Store B, http://y)
    the result is the two rows (Store A, http://x), (Store B, http://y). *)
Theorem C1_dedup_sorted_duplicates_removed :
  (forall P : list LinkPair,
      StronglySorted pair_lt (dedup P)
      /\ NoDup (dedup P)
      /\ (forall p, In p (dedup P) <-> In p P))
  /\ dedup [("Store A", "http://x"); ("Store A", "http://x");
            ("Store B", "http://y")]
     = [("Store A", "http://x"); ("Store B", "http://y")].
Proof.
  split; [|reflexivity].
  intros P. split; [apply dedup_sorted|].
  split; [apply dedup_NoDup | apply dedup_In].
Qed.

(** C8. De-duplicating twice is de-duplicating once, and the result holds
    no two equal pairs. *)
Theorem C8_dedup_idempotent :
  forall P : list LinkPair, dedup (dedup P) = dedup P /\ NoDup (dedup P).
Proof.
  intros P. split; [|apply dedup_NoDup].
  unfold dedup at 1. unfold drop_duplicates.
  rewrite (unique_id pair_eqb pair_eqb_eq) by apply dedup_NoDup.
  apply sort_by_sorted_id, dedup_sorted_leb.
Qed.

(* ===================================================================== *)
(** * Grouping by store *)
(* ===================================================================== *)

Lemma StronglySorted_map {A B : Type} (R : B -> B -> Prop) (f : A -> B)
      (l : list A) :
  StronglySorted (fun a b => R (f a) (f b)) l <-> StronglySorted R (map f l).
Proof.
  induction l as [|x r IH]; simpl.
  - split; constructor.
  - split; intros H; inversion H as [|? ? Hs Hx]; subst; constructor;
      try (apply IH; exact Hs).
    + rewrite Forall_forall in *. intros y Hy.
      apply in_map_iff in Hy. destruct Hy as [z [<- Hz]]. auto.
    + rewrite Forall_forall in *. intros y Hy. apply Hx. now apply in_map.
Qed.

Lemma group_keys_In (df : list LinkPair) (k : string) :
  In k (group_keys df) <-> In k (map fst df).
Proof.
  unfold group_keys. rewrite sort_by_In. apply unique_In, String.eqb_eq.
Qed.

Lemma group_keys_NoDup (df : list LinkPair) : NoDup (group_keys df).
Proof. apply sort_by_NoDup, unique_NoDup, String.eqb_eq. Qed.

Lemma group_keys_sorted (df : list LinkPair) :
  StronglySorted str_lt (group_keys df).
Proof.
  apply sorted_strict with (le := fun a b => String.leb a b = true).
  - intros a b. apply str_leb_iff.
  - apply sort_by_sorted; [apply String.leb_total | apply str_leb_trans].
  - apply group_keys_NoDup.
Qed.

Lemma groupby_keys (df : list LinkPair) : map fst (groupby df) = group_keys df.
Proof.
  unfold groupby, groups_of. rewrite map_map. simpl. apply map_id.
Qed.

Lemma groupby_In (df : list LinkPair) (k : string) (ls : list string) :
  In (k, ls) (groupby df) <-> In k (map fst df) /\ ls = group_rows k df.
Proof.
  unfold groupby, groups_of. rewrite in_map_iff. split.
  - intros [k' [E Hk]]. inversion E; subst. split; [|reflexivity].
    now apply group_keys_In.
  - intros [Hk ->]. exists k. split; [reflexivity|]. now apply group_keys_In.
Qed.

Lemma group_rows_In (k l : string) (df : list LinkPair) :
  In l (group_rows k df) <-> In (k, l) df.
Proof.
  unfold group_rows. rewrite in_map_iff. split.
  - intros [[s l'] [E H]]. simpl in E. subst l'.
    apply filter_In in H. destruct H as [H E]. simpl in E.
    apply String.eqb_eq in E. now subst.
  - intros H. exists (k, l). split; [reflexivity|].
    apply filter_In. split; [exact H|]. simpl. apply String.eqb_refl.
Qed.

Lemma group_rows_NoDup (k : string) (df : list LinkPair) :
  NoDup df -> NoDup (group_rows k df).
Proof.
  unfold group_rows. induction 1 as [|[s l] r Hx Hr IH]; simpl; [constructor|].
  destruct (String.eqb s k) eqn:E; [|exact IH].
  apply String.eqb_eq in E. subst s. simpl. constructor; [|exact IH].
  intros Hin. apply Hx. now apply (group_rows_In k l r).
Qed.

Lemma group_rows_snoc (k : string) (df : list LinkPair) (p : LinkPair) :
  group_rows k (df ++ [p]) =
  group_rows k df ++ (if String.eqb (fst p) k then [snd p] else []).
Proof.
  unfold group_rows. rewrite filter_app, map_app. simpl.
  now destruct (String.eqb (fst p) k).
Qed.

Lemma group_rows_absent (k : string) (df : list LinkPair) :
  ~ In k (map fst df) -> group_rows k df = [].
Proof.
  intros H. destruct (group_rows k df) as [|l r] eqn:E; [reflexivity|].
  exfalso. apply H. apply in_map_iff. exists (k, l). split; [reflexivity|].
  apply group_rows_In. rewrite E. now left.
Qed.

(** Re-sorting by store a frame derived group by group from [groupby]
    changes nothing: the groups already come in ascending key order. *)
Lemma sort_by_tienda_groupby {B : Type} (f : string * list string -> string * B)
      (pares : list LinkPair) :
  (forall g, fst (f g) = fst g) ->
  sort_by DedupPorTienda.tienda_leb (map f (groupby pares)) =
  map f (groupby pares).
Proof.
  intros Hf. apply sort_by_sorted_id.
  apply (StronglySorted_map
           (fun a b : string * B => DedupPorTienda.tienda_leb a b = true) f).
  apply strict_sorted_weaken with (lt := fun a b => str_lt (fst a) (fst b)).
  - intros a b H. unfold DedupPorTienda.tienda_leb. rewrite !Hf.
    apply str_leb_iff. now left.
  - apply (StronglySorted_map str_lt fst). rewrite groupby_keys.
    apply group_keys_sorted.
Qed.

(** The groups of [group_by_store] are those of [groupby], in the same
    order, with the links of each group made unique. *)
Lemma group_by_store_groupby (pares : list LinkPair) :
  DedupPorTienda.group_by_store pares =
  map (fun g => (fst g, unique String.eqb (snd g))) (groupby pares).
Proof.
  unfold DedupPorTienda.group_by_store. now apply sort_by_tienda_groupby.
Qed.

(** The summary sheet row of a group is computed from its unique links. *)
Lemma links_por_tienda_groups (pares : list LinkPair) :
  DedupPorTienda.links_por_tienda pares =
  map (fun g => (fst g, (List.length (snd g), join DedupPorTienda.LF (snd g))))
      (DedupPorTienda.group_by_store pares).
Proof.
  rewrite group_by_store_groupby, map_map. simpl.
  unfold DedupPorTienda.links_por_tienda. now apply sort_by_tienda_groupby.
Qed.

Lemma groups_of_snoc_other (ks : list string) (df : list LinkPair)
      (t l : string) :
  ~ In t ks -> groups_of ks (df ++ [(t, l)]) = groups_of ks df.
Proof.
  intros H. unfold groups_of. apply map_ext_in. intros k Hk.
  rewrite group_rows_snoc. simpl.
  destruct (String.eqb t k) eqn:E; [|now rewrite app_nil_r].
  apply String.eqb_eq in E. subst. contradiction.
Qed.

Lemma dd_append_groups (ks : list string) (df : list LinkPair) (t l : string) :
  NoDup ks ->
  (~ In t ks -> group_rows t df = []) ->
  ExtraerTiendaLinks.dd_append (groups_of ks df) t l =
  groups_of (ks ++ (if mem t ks then [] else [t])) (df ++ [(t, l)]).
Proof.
  induction ks as [|k ks IH]; intros Hnd Habs; simpl.
  - rewrite group_rows_snoc. simpl. rewrite String.eqb_refl.
    rewrite Habs by tauto. reflexivity.
  - inversion Hnd as [|? ? Hk Hks]; subst.
    rewrite group_rows_snoc. simpl.
    rewrite (String.eqb_sym t k).
    destruct (String.eqb k t) eqn:E; simpl.
    + apply String.eqb_eq in E. subst t.
      rewrite app_nil_r. now rewrite groups_of_snoc_other.
    + rewrite app_nil_r.
      f_equal. apply IH; [exact Hks|].
      intros Hn. apply Habs. intros [E' | H]; [|contradiction].
      subst. rewrite String.eqb_refl in E. discriminate.
Qed.

Lemma agrupado_groups (df : list LinkPair) :
  ExtraerTiendaLinks.agrupado df =
  groups_of (unique String.eqb (map fst df)) df.
Proof.
  unfold ExtraerTiendaLinks.agrupado.
  induction df as [|[t l] df IH] using rev_ind; [reflexivity|].
  unfold LinkPair in *. rewrite fold_left_app, IH. simpl.
  rewrite map_app. simpl.
  rewrite (unique_snoc String.eqb String.eqb_eq).
  rewrite dd_append_groups.
  - f_equal. f_equal. unfold mem.
    destruct (existsb (String.eqb t) (map fst df)) eqn:E.
    + apply (existsb_eqb String.eqb String.eqb_eq) in E.
      apply (unique_In String.eqb String.eqb_eq) in E.
      apply (existsb_eqb String.eqb String.eqb_eq) in E. now rewrite E.
    + apply (existsb_eqb_false String.eqb String.eqb_eq) in E.
      rewrite <- (unique_In String.eqb String.eqb_eq) in E.
      apply (existsb_eqb_false String.eqb String.eqb_eq) in E. now rewrite E.
  - apply unique_NoDup, String.eqb_eq.
  - intros H. apply group_rows_absent.
    now rewrite (unique_In String.eqb String.eqb_eq) in H.
Qed.

(** [sorted(agrupado.items())] is the grouping that [groupby] computes. *)
Lemma sorted_items_groupby (df : list LinkPair) :
  ExtraerTiendaLinks.sorted_items df = groupby df.
Proof.
  unfold ExtraerTiendaLinks.sorted_items, groupby, group_keys.
  rewrite agrupado_groups. unfold groups_of.
  apply sort_by_map; [|apply unique_NoDup, String.eqb_eq].
  intros a b _ _ Hne. unfold ExtraerTiendaLinks.item_leb, String.leb. simpl.
  destruct (String.compare a b) eqn:E; try reflexivity.
  apply str_compare_eq in E. contradiction.
Qed.

Lemma group_by_store_unique_pairs (U : list LinkPair) :
  NoDup U -> DedupPorTienda.group_by_store U = groupby U.
Proof.
  intros Hnd. rewrite group_by_store_groupby.
  rewrite <- (map_id (groupby U)) at 2.
  apply map_ext_in. intros [k ls] Hin. simpl.
  apply groupby_In in Hin. destruct Hin as [_ ->].
  now rewrite (unique_id String.eqb String.eqb_eq) by now apply group_rows_NoDup.
Qed.

(** C2. For a de-duplicated pair sequence [U], the groups come in
    strictly ascending order of store name, one group for every store of
    [U]; the links of a group are the links of that store's rows of [U],
    in the order of [U], and none of them is repeated. The grouping of the
    extraction script, [sorted(agrupado.items())], yields the same groups. *)
Theorem C2_group_by_store_sorted_first_occurrence :
  forall P : list LinkPair,
    let U := dedup P in
    let G := DedupPorTienda.group_by_store U in
    StronglySorted str_lt (map fst G)
    /\ (forall s, In s (map fst G) <-> In s (map fst U))
    /\ (forall s ls, In (s, ls) G ->
          ls = map snd (filter (fun p => String.eqb (fst p) s) U) /\ NoDup ls)
    /\ ExtraerTiendaLinks.sorted_items U = G.
Proof.
  intros P U G.
  assert (EG : G = groupby U).
  { apply group_by_store_unique_pairs, dedup_NoDup. }
  rewrite EG, groupby_keys. repeat split.
  - apply group_keys_sorted.
  - apply group_keys_In.
  - apply group_keys_In.
  - apply groupby_In in H. now destruct H.
  - apply groupby_In in H. destruct H as [_ ->].
    apply group_rows_NoDup, dedup_NoDup.
  - apply sorted_items_groupby.
Qed.

(* ===================================================================== *)
(** * One link per store *)
(* ===================================================================== *)

Lemma filter_sorted {A : Type} (R : A -> A -> Prop) (f : A -> bool)
      (l : list A) :
  StronglySorted R l -> StronglySorted R (filter f l).
Proof.
  induction 1 as [|x r Hs IH Hx]; simpl; [constructor|].
  destruct (f x); [|exact IH].
  constructor; [exact IH|].
  rewrite Forall_forall in *. intros y Hy.
  apply filter_In in Hy. now apply Hx.
Qed.

(** In a frame sorted on (store, link) the first link of a group is the
    least link of the group. *)
Lemma group_rows_head_min (s l : string) (r : list string)
      (S : list LinkPair) :
  StronglySorted (fun a b => pair_leb a b = true) S ->
  group_rows s S = l :: r ->
  forall l', In l' (l :: r) -> String.leb l l' = true.
Proof.
  unfold group_rows. intros Hs.
  apply (filter_sorted _ (fun p => String.eqb (fst p) s)) in Hs.
  assert (Hk : forall p, In p (filter (fun p => String.eqb (fst p) s) S)
                         -> fst p = s).
  { intros p Hp. apply filter_In in Hp. now apply String.eqb_eq. }
  destruct (filter (fun p => String.eqb (fst p) s) S) as [|[s0 l0] F];
    simpl; [discriminate|].
  intros E l' [<- | Hin]; [apply str_leb_refl|].
  inversion E; subst l0 r. clear E.
  apply in_map_iff in Hin. destruct Hin as [[s1 l1] [E Hin]].
  simpl in E. subst l1.
  assert (E0 : s0 = s) by (apply (Hk (s0, l)); now left).
  assert (E1 : s1 = s) by (apply (Hk (s1, l')); now right).
  subst s0 s1.
  inversion Hs as [|? ? _ Hall]; subst.
  rewrite Forall_forall in Hall. specialize (Hall _ Hin).
  apply pair_leb_iff in Hall. apply str_leb_iff.
  destruct Hall as [Hlt | Heq].
  - apply pair_lt_lex in Hlt. simpl in Hlt.
    destruct Hlt as [Hlt | [_ Hlt]]; [|now left].
    exfalso. exact (str_lt_irrefl s Hlt).
  - inversion Heq. now right.
Qed.

Lemma groupby_first_rows (df : list LinkPair) :
  groupby_first df = flat_map first_row (groupby df).
Proof. reflexivity. Qed.

Lemma first_rows_keys (ks : list string) (df : list LinkPair) :
  (forall k, In k ks -> In k (map fst df)) ->
  map fst (flat_map first_row (groups_of ks df)) = ks.
Proof.
  induction ks as [|k ks IH]; intros H; simpl; [reflexivity|].
  unfold first_row at 1. simpl.
  destruct (group_rows k df) as [|l r] eqn:E.
  - exfalso. assert (Hk : In k (map fst df)) by (apply H; now left).
    apply in_map_iff in Hk. destruct Hk as [[s l] [Es Hin]].
    simpl in Es. subst s.
    apply group_rows_In in Hin. rewrite E in Hin. contradiction.
  - simpl. f_equal. apply IH. intros k' Hk'. apply H. now right.
Qed.

Lemma groupby_first_keys (df : list LinkPair) :
  map fst (groupby_first df) = group_keys df.
Proof.
  rewrite groupby_first_rows. unfold groupby.
  apply first_rows_keys. intros k. apply group_keys_In.
Qed.

Lemma groupby_first_In (df : list LinkPair) (s l : string) :
  In (s, l) (groupby_first df) -> exists r, group_rows s df = l :: r.
Proof.
  rewrite groupby_first_rows. intros H.
  apply in_flat_map in H. destruct H as [[k ls] [Hg Hin]].
  apply groupby_In in Hg. destruct Hg as [_ ->].
  unfold first_row in Hin. simpl in Hin.
  destruct (group_rows k df) as [|l0 r] eqn:E; [contradiction|].
  destruct Hin as [Heq | []]. inversion Heq; subst. now exists r.
Qed.

Lemma sort_values_dedup (P : list LinkPair) : sort_values (dedup P) = dedup P.
Proof. apply sort_by_sorted_id, dedup_sorted_leb. Qed.

(** C10. With the one-link-per-store option, the table has exactly one row
    for every distinct store of the unique pairs (its store column has no
    repetition and lists the same stores), and the link of a store's row
    is one of that store's unique links, not above any other of them in
    the code-point order. *)
Theorem C10_uno_por_tienda_smallest_link :
  forall P : list LinkPair,
    let U := dedup P in
    let T := DedupPorTienda.uno_por_tienda U in
    NoDup (map fst T)
    /\ (forall s, In s (map fst T) <-> In s (map fst U))
    /\ (forall s l, In (s, l) T ->
          In (s, l) U /\ forall l', In (s, l') U -> String.leb l l' = true).
Proof.
  intros P U T. unfold T, DedupPorTienda.uno_por_tienda.
  unfold U. rewrite sort_values_dedup. fold U.
  rewrite groupby_first_keys. repeat split.
  - apply group_keys_NoDup.
  - apply group_keys_In.
  - apply group_keys_In.
  - apply groupby_first_In in H. destruct H as [r E].
    apply group_rows_In. rewrite E. now left.
  - intros l' Hl'. apply groupby_first_In in H. destruct H as [r E].
    apply (group_rows_head_min s l r U); [apply dedup_sorted_leb | exact E |].
    rewrite <- E. now apply group_rows_In.
Qed.

(* ===================================================================== *)
(** * Cleaning of the store and link values *)
(* ===================================================================== *)

Lemma lstrip_spec (s : string) :
  exists pre, s = (pre ++ lstrip s)%string /\ all_space pre = true
              /\ forall c, head_char (lstrip s) = Some c -> isspace c = false.
Proof.
  induction s as [|a s IH]; simpl.
  - exists EmptyString. repeat split. discriminate.
  - destruct (isspace a) eqn:E.
    + destruct IH as [pre [Hs [Hp Hh]]]. exists (String a pre). simpl.
      rewrite E, Hp. repeat split; [now f_equal | exact Hh].
    + exists EmptyString. repeat split. simpl. intros c Hc. congruence.
Qed.

Lemma rstrip_spec (s : string) :
  exists post, s = (rstrip s ++ post)%string /\ all_space post = true
               /\ forall c, last_char (rstrip s) = Some c -> isspace c = false.
Proof.
  induction s as [|a s IH]; simpl.
  - exists EmptyString. repeat split. discriminate.
  - destruct IH as [post [Hs [Hp Hl]]].
    destruct (rstrip s) as [|b t] eqn:Er.
    + simpl in Hs. subst post. destruct (isspace a) eqn:E.
      * exists (String a s). simpl. rewrite E, Hp. repeat split. discriminate.
      * exists s. simpl. repeat split; [exact Hp|]. intros c Hc. congruence.
    + exists post. simpl. repeat split; [now f_equal | exact Hp |].
      simpl in Hl. intros c. destruct (last_char t); apply Hl.
Qed.

Lemma rstrip_head (s : string) (c : ascii) :
  head_char (rstrip s) = Some c -> head_char s = Some c.
Proof.
  destruct s as [|a s]; simpl; [discriminate|].
  destruct (rstrip s); [destruct (isspace a)|]; simpl; congruence.
Qed.

(** [strip] removes a whitespace prefix and a whitespace suffix and leaves
    what lies between them as it is. *)
Lemma strip_spec (s : string) :
  exists pre post,
    s = (pre ++ strip s ++ post)%string
    /\ all_space pre = true /\ all_space post = true
    /\ (forall c, head_char (strip s) = Some c -> isspace c = false)
    /\ (forall c, last_char (strip s) = Some c -> isspace c = false).
Proof.
  unfold strip.
  destruct (lstrip_spec s) as [pre [Hs [Hp Hh]]].
  destruct (rstrip_spec (lstrip s)) as [post [Hs' [Hq Hl]]].
  exists pre, post. repeat split; auto.
  - now rewrite <- Hs'.
  - intros c Hc. apply Hh. now apply rstrip_head.
Qed.

(** Rows of the cleaned frame come from rows of [base] whose two cells are
    present, with both values stripped. *)
Lemma limpieza_In (base : DedupPorTienda.Base) (p : LinkPair) :
  In p (DedupPorTienda.limpieza base) <->
  exists s l, In (DedupPorTienda.Val s, DedupPorTienda.Val l) base
              /\ p = (strip s, strip l) /\ strip l <> EmptyString.
Proof.
  unfold DedupPorTienda.limpieza, DedupPorTienda.nonempty_link,
    DedupPorTienda.strip_columns, DedupPorTienda.dropna.
  rewrite filter_In, in_map_iff. split.
  - intros [[[c d] [E Hin]] Hne]. apply filter_In in Hin.
    destruct Hin as [Hin Hna]. simpl in *.
    destruct c as [|s]; [discriminate|]. destruct d as [|l]; [discriminate|].
    simpl in E. subst p. simpl in Hne.
    exists s, l. repeat split; [exact Hin|].
    intros H. rewrite H in Hne. discriminate.
  - intros [s [l [Hin [-> Hne]]]]. split.
    + exists (DedupPorTienda.Val s, DedupPorTienda.Val l). split; [reflexivity|].
      apply filter_In. now split.
    + simpl. apply negb_true_iff. now apply String.eqb_neq.
Qed.

(** C3, as stated, fails on the scripts: the store value with two inner
    spaces keeps them, in the pandas script and in the extraction loop. *)
Lemma C3_inner_whitespace_kept :
  strip "  Store  X " <> trim_and_collapse "  Store  X "
  /\ trim_and_collapse "  Store  X " = "Store X"%string
  /\ DedupPorTienda.pares_unicos
       [(DedupPorTienda.Val "  Store  X ", DedupPorTienda.Val "http://x")]
     = [("Store  X", "http://x")]
  /\ ExtraerTiendaLinks.row_pairs
       (ExtraerTiendaLinks.VStr "  Store  X ",
        {| ExtraerTiendaLinks.value := ExtraerTiendaLinks.VNone;
           ExtraerTiendaLinks.hyperlink :=
             Some {| ExtraerTiendaLinks.target := Some "http://x"%string |} |})
     = [("Store  X", "http://x")].
Proof. repeat split. discriminate. Qed.

Lemma row_pairs_store (row : ExtraerTiendaLinks.Row) (p : LinkPair) :
  In p (ExtraerTiendaLinks.row_pairs row) ->
  fst p = strip (ExtraerTiendaLinks.str_of (fst row)).
Proof.
  unfold ExtraerTiendaLinks.row_pairs.
  destruct (ExtraerTiendaLinks.extract_url (snd row)) as [url|]; [|contradiction].
  destruct (ExtraerTiendaLinks.value_truthy (fst row) && truthy url);
    [|contradiction].
  intros [<- | []]. reflexivity.
Qed.

(** C3, amended. The store value of every cleaned row is a cell text with
    its leading and trailing whitespace removed and nothing else changed:
    the text is the stripped value between a whitespace prefix and a
    whitespace suffix, and the stripped value neither starts nor ends with
    whitespace. This holds for the pandas script and for the rows the
    extraction loop appends. The value with two inner spaces keeps both. *)
Theorem C3_store_value_is_stripped :
  (forall (base : DedupPorTienda.Base) (p : LinkPair),
      In p (DedupPorTienda.pares_unicos base) ->
      exists s l, In (DedupPorTienda.Val s, DedupPorTienda.Val l) base
                  /\ fst p = strip s)
  /\ (forall (row : ExtraerTiendaLinks.Row) (p : LinkPair),
         In p (ExtraerTiendaLinks.row_pairs row) ->
         fst p = strip (ExtraerTiendaLinks.str_of (fst row)))
  /\ (forall s : string,
         exists pre post,
           s = (pre ++ strip s ++ post)%string
           /\ all_space pre = true /\ all_space post = true
           /\ (forall c, head_char (strip s) = Some c -> isspace c = false)
           /\ (forall c, last_char (strip s) = Some c -> isspace c = false))
  /\ strip "  Store  X " = "Store  X"%string.
Proof.
  split; [|split; [exact row_pairs_store | split; [exact strip_spec | reflexivity]]].
  intros base p Hin. unfold DedupPorTienda.pares_unicos in Hin.
  apply dedup_In, limpieza_In in Hin.
  destruct Hin as [s [l [Hin [-> _]]]].
  exists s, l. split; [exact Hin | reflexivity].
Qed.

(** C5. The rows that the cleaning keeps although their store is empty once
    stripped: a store cell holding only spaces, in the pandas script and
    in the extraction loop; and, in the extraction loop, a hyperlink target
    holding only spaces. *)
Lemma C5_blank_store_row_is_kept :
  DedupPorTienda.pares_unicos
    [(DedupPorTienda.Val "   ", DedupPorTienda.Val "http://x")]
  = [(EmptyString, "http://x"%string)]
  /\ ExtraerTiendaLinks.row_pairs
       (ExtraerTiendaLinks.VStr "   ",
        {| ExtraerTiendaLinks.value := ExtraerTiendaLinks.VNone;
           ExtraerTiendaLinks.hyperlink :=
             Some {| ExtraerTiendaLinks.target := Some "http://x"%string |} |})
     = [(EmptyString, "http://x"%string)]
  /\ ExtraerTiendaLinks.row_pairs
       (ExtraerTiendaLinks.VStr "Store A",
        {| ExtraerTiendaLinks.value := ExtraerTiendaLinks.VNone;
           ExtraerTiendaLinks.hyperlink :=
             Some {| ExtraerTiendaLinks.target := Some "  "%string |} |})
     = [("Store A"%string, EmptyString)].
Proof. repeat split. Qed.

(** What the cleaning of the pandas script does exclude: a row with a
    missing store cell, a missing link cell, or a link that is empty once
    stripped leaves no row behind. *)
Lemma limpieza_excludes (base : DedupPorTienda.Base) (c d : DedupPorTienda.cell) :
  c = DedupPorTienda.NaN \/ d = DedupPorTienda.NaN
  \/ strip (DedupPorTienda.astype_str d) = EmptyString ->
  DedupPorTienda.limpieza ((c, d) :: base) = DedupPorTienda.limpieza base.
Proof.
  unfold DedupPorTienda.limpieza, DedupPorTienda.dropna. simpl.
  intros [-> | [-> | H]]; simpl; try reflexivity.
  - now destruct c.
  - destruct c, d; simpl; try reflexivity.
    simpl in H. unfold DedupPorTienda.nonempty_link. simpl. now rewrite H.
Qed.

(* ===================================================================== *)
(** * Detection of the link column *)
(* ===================================================================== *)

Lemma mem_In (x : string) (l : list string) : mem x l = true <-> In x l.
Proof. apply existsb_eqb, String.eqb_eq. Qed.

Lemma mem_not_In (x : string) (l : list string) : mem x l = false <-> ~ In x l.
Proof. apply existsb_eqb_false, String.eqb_eq. Qed.

Lemma first_preferred_Some (cols prefer : list string) (c : string) :
  DedupPorTienda.first_preferred cols prefer = Some c <->
  exists p1 p2, prefer = p1 ++ c :: p2 /\ In c cols
                /\ forall x, In x p1 -> ~ In x cols.
Proof.
  induction prefer as [|y r IH]; simpl.
  - split; [discriminate|]. intros [[|? ?] [p2 [E _]]]; discriminate.
  - destruct (mem y cols) eqn:E.
    + apply mem_In in E. split.
      * intros H. inversion H; subst. exists [], r. simpl. tauto.
      * intros [[|z p1] [p2 [Ep [Hc Hn]]]]; simpl in Ep; inversion Ep; subst;
          [reflexivity|].
        exfalso. apply (Hn z); [now left | exact E].
    + apply mem_not_In in E. rewrite IH. split.
      * intros [p1 [p2 [-> [Hc Hn]]]]. exists (y :: p1), p2.
        repeat split; auto. intros x [<- | Hx]; auto.
      * intros [[|z p1] [p2 [Ep [Hc Hn]]]]; simpl in Ep; inversion Ep; subst;
          [contradiction|].
        exists p1, p2. repeat split; auto. intros x Hx. apply Hn. now right.
Qed.

Lemma first_preferred_None (cols prefer : list string) :
  DedupPorTienda.first_preferred cols prefer = None <->
  forall x, In x prefer -> ~ In x cols.
Proof.
  induction prefer as [|y r IH]; simpl; [tauto|].
  destruct (mem y cols) eqn:E.
  - apply mem_In in E. split; [discriminate|].
    intros H. exfalso. apply (H y); auto.
  - apply mem_not_In in E. rewrite IH. split.
    + intros H x [<- | Hx]; auto.
    + intros H x Hx. apply H. now right.
Qed.

Lemma first_url_column_Some (df : DedupPorTienda.DataFrame) (c : string) :
  DedupPorTienda.first_url_column df = Some c <->
  exists d1 vals d2,
    df = d1 ++ (c, vals) :: d2
    /\ DedupPorTienda.column_has_url vals = true
    /\ forall col, In col d1 -> DedupPorTienda.column_has_url (snd col) = false.
Proof.
  induction df as [|[y vs] r IH]; simpl.
  - split; [discriminate|]. intros [[|? ?] [vals [d2 [E _]]]]; discriminate.
  - destruct (DedupPorTienda.column_has_url vs) eqn:E.
    + split.
      * intros H. inversion H; subst. exists [], vs, r. simpl. tauto.
      * intros [[|z d1] [vals [d2 [Ep [Hc Hn]]]]]; simpl in Ep; inversion Ep;
          subst; [reflexivity|].
        specialize (Hn (y, vs) (or_introl eq_refl)). simpl in Hn. congruence.
    + rewrite IH. split.
      * intros [d1 [vals [d2 [-> [Hc Hn]]]]]. exists ((y, vs) :: d1), vals, d2.
        repeat split; auto. intros col [<- | Hx]; auto.
      * intros [[|z d1] [vals [d2 [Ep [Hc Hn]]]]]; simpl in Ep; inversion Ep;
          subst; [congruence|].
        exists d1, vals, d2. repeat split; auto. intros col Hx. apply Hn. now right.
Qed.

Lemma first_url_column_None (df : DedupPorTienda.DataFrame) :
  DedupPorTienda.first_url_column df = None <->
  forall col, In col df -> DedupPorTienda.column_has_url (snd col) = false.
Proof.
  induction df as [|[y vs] r IH]; simpl; [tauto|].
  destruct (DedupPorTienda.column_has_url vs) eqn:E.
  - split; [discriminate|]. intros H.
    specialize (H (y, vs) (or_introl eq_refl)). simpl in H. congruence.
  - rewrite IH. split.
    + intros H col [<- | Hx]; auto.
    + intros H col Hx. apply H. now right.
Qed.





(* ===================================================================== *)
(** * The URL of a workbook cell *)
(* ===================================================================== *)

Lemma until_quote_app (u post : string) :
  ExtraerTiendaLinks.until_quote u = None ->
  ExtraerTiendaLinks.until_quote
    (u ++ String ExtraerTiendaLinks.DQUOTE post)%string = Some u.
Proof.
  induction u as [|a u IH];
    cbn [ExtraerTiendaLinks.until_quote String.append].
  - intros _. now rewrite Ascii.eqb_refl.
  - destruct (Ascii.eqb a ExtraerTiendaLinks.DQUOTE); [discriminate|].
    destruct (ExtraerTiendaLinks.until_quote u); [discriminate|].
    intros _. now rewrite IH.
Qed.

Lemma until_quote_Some (r u : string) :
  ExtraerTiendaLinks.until_quote r = Some u ->
  exists post, r = (u ++ String ExtraerTiendaLinks.DQUOTE post)%string
               /\ ExtraerTiendaLinks.until_quote u = None.
Proof.
  revert u. induction r as [|a r IH]; cbn [ExtraerTiendaLinks.until_quote];
    [discriminate|]. intros u.
  destruct (Ascii.eqb a ExtraerTiendaLinks.DQUOTE) eqn:E.
  - apply Ascii.eqb_eq in E. subst a. intros H. inversion H; subst.
    exists r. split; reflexivity.
  - destruct (ExtraerTiendaLinks.until_quote r) as [u0|]; [|discriminate].
    simpl. intros H. inversion H; subst.
    destruct (IH u0 eq_refl) as [post [-> Hn]].
    exists post. cbn [ExtraerTiendaLinks.until_quote String.append].
    rewrite E, Hn. split; reflexivity.
Qed.

Lemma quoted_url_at_spec (r u : string) :
  ExtraerTiendaLinks.quoted_url_at r = Some u <->
  ExtraerTiendaLinks.quoted_url_here r u.
Proof.
  unfold ExtraerTiendaLinks.quoted_url_at, ExtraerTiendaLinks.quoted_url_here.
  split.
  - destruct (ExtraerTiendaLinks.until_quote r) as [u0|] eqn:E; [|discriminate].
    destruct (ExtraerTiendaLinks.url_body u0) eqn:B; [|discriminate].
    intros H. inversion H; subst.
    destruct (until_quote_Some _ _ E) as [post [-> Hn]].
    exists post. auto.
  - intros [post [-> [Hn B]]]. now rewrite until_quote_app, B.
Qed.

Lemma quoted_url_at_None (r u : string) :
  ExtraerTiendaLinks.quoted_url_at r = None ->
  ~ ExtraerTiendaLinks.quoted_url_here r u.
Proof.
  intros H Hq. apply quoted_url_at_spec in Hq. congruence.
Qed.

(** How a text that starts with [a] splits around a double quote. *)
Lemma split_at_quote (a : ascii) (r pre rest : string) :
  String a r = (pre ++ String ExtraerTiendaLinks.DQUOTE rest)%string ->
  (pre = EmptyString /\ a = ExtraerTiendaLinks.DQUOTE /\ r = rest)
  \/ exists p, pre = String a p
               /\ r = (p ++ String ExtraerTiendaLinks.DQUOTE rest)%string.
Proof.
  destruct pre as [|b p]; simpl; intros H; inversion H; subst.
  - left. auto.
  - right. now exists p.
Qed.

Lemma extraer_url_None (s : string) :
  ExtraerTiendaLinks.extraer_url_de_formula s = None ->
  ExtraerTiendaLinks.no_quoted_url s.
Proof.
  unfold ExtraerTiendaLinks.no_quoted_url.
  induction s as [|a s IH]; cbn [ExtraerTiendaLinks.extraer_url_de_formula];
    intros H pre rest u E.
  - destruct pre; discriminate.
  - apply split_at_quote in E. destruct E as [[-> [-> ->]] | [p [-> ->]]].
    + rewrite Ascii.eqb_refl in H.
      destruct (ExtraerTiendaLinks.quoted_url_at rest) eqn:Q; [discriminate|].
      now apply quoted_url_at_None.
    + apply (IH) with (pre := p); [|reflexivity].
      destruct (Ascii.eqb a ExtraerTiendaLinks.DQUOTE); [|exact H].
      destruct (ExtraerTiendaLinks.quoted_url_at
                  (p ++ String ExtraerTiendaLinks.DQUOTE rest)); [discriminate|].
      exact H.
Qed.

Lemma first_quoted_url_skip (a : ascii) (s u : string) :
  (forall u', a = ExtraerTiendaLinks.DQUOTE ->
              ~ ExtraerTiendaLinks.quoted_url_here s u') ->
  ExtraerTiendaLinks.first_quoted_url s u ->
  ExtraerTiendaLinks.first_quoted_url (String a s) u.
Proof.
  intros Hno [pre [rest [-> [Hq Hmin]]]].
  exists (String a pre), rest. split; [reflexivity|]. split; [exact Hq|].
  intros pre' rest' u' E Hq'.
  apply split_at_quote in E. destruct E as [[-> [-> E]] | [p [-> E]]].
  - exfalso. apply (Hno u' eq_refl). now rewrite E.
  - simpl. apply le_n_S. now apply (Hmin p rest' u').
Qed.

Lemma extraer_url_Some (s u : string) :
  ExtraerTiendaLinks.extraer_url_de_formula s = Some u ->
  ExtraerTiendaLinks.first_quoted_url s u.
Proof.
  induction s as [|a s IH]; cbn [ExtraerTiendaLinks.extraer_url_de_formula];
    [discriminate|].
  destruct (Ascii.eqb a ExtraerTiendaLinks.DQUOTE) eqn:E.
  - apply Ascii.eqb_eq in E. subst a.
    destruct (ExtraerTiendaLinks.quoted_url_at s) as [u0|] eqn:Q.
    + intros H. inversion H; subst.
      exists EmptyString, s. split; [reflexivity|].
      split; [now apply quoted_url_at_spec|].
      intros. simpl. apply Nat.le_0_l.
    + intros H. apply first_quoted_url_skip; [|now apply IH].
      intros u' _. now apply quoted_url_at_None.
  - intros H. apply first_quoted_url_skip; [|now apply IH].
    intros u' ->. rewrite Ascii.eqb_refl in E. discriminate.
Qed.

Lemma hex_run_Some (n : nat) (s r : string) :
  ExtraerTiendaLinks.hex_run n s = Some r <->
  exists h, s = (h ++ r)%string /\ ExtraerTiendaLinks.hex_group n h.
Proof.
  unfold ExtraerTiendaLinks.hex_group. revert s.
  induction n as [|n IH]; intros s; cbn [ExtraerTiendaLinks.hex_run].
  - split.
    + intros H. inversion H; subst. exists EmptyString. auto.
    + intros [[|a h] [-> [Hl _]]]; [reflexivity | discriminate].
  - destruct s as [|a s].
    + split; [discriminate|].
      intros [[|b h] [E [Hl _]]]; discriminate.
    + destruct (ExtraerTiendaLinks.is_hex a) eqn:Ea.
      * rewrite IH. split.
        -- intros [h [-> [Hl Hh]]]. exists (String a h).
           cbn [String.length ExtraerTiendaLinks.all_hex String.append].
           rewrite Ea, Hh, Hl. auto.
        -- intros [[|b h] [E [Hl Hh]]]; [discriminate|].
           cbn [String.append] in E. inversion E; subst.
           cbn [String.length ExtraerTiendaLinks.all_hex] in Hl, Hh.
           apply andb_true_iff in Hh. exists h. intuition congruence.
      * split; [discriminate|].
        intros [[|b h] [E [Hl Hh]]]; [discriminate|].
        cbn [String.append] in E. inversion E; subst.
        cbn [ExtraerTiendaLinks.all_hex] in Hh. rewrite Ea in Hh. discriminate.
Qed.

Lemma dash_Some (s r : string) :
  ExtraerTiendaLinks.dash s = Some r <-> s = String "-" r.
Proof.
  unfold ExtraerTiendaLinks.dash. destruct s as [|a s].
  - split; discriminate.
  - destruct (Ascii.eqb a "-") eqn:E.
    + apply Ascii.eqb_eq in E. subst. split; intros H; inversion H; reflexivity.
    + apply Ascii.eqb_neq in E. split; [discriminate|].
      intros H. inversion H. contradiction.
Qed.

(** The GUID pattern accepts exactly the texts made of five groups of 8, 4,
    4, 4 and 12 hexadecimal digits with a dash between two groups. *)
Lemma GUID_RE_fullmatch_spec (s : string) :
  ExtraerTiendaLinks.GUID_RE_fullmatch s = true <->
  exists h1 h2 h3 h4 h5,
    s = (h1 ++ String "-" (h2 ++ String "-" (h3 ++ String "-"
          (h4 ++ String "-" h5))))%string
    /\ ExtraerTiendaLinks.hex_group 8 h1 /\ ExtraerTiendaLinks.hex_group 4 h2
    /\ ExtraerTiendaLinks.hex_group 4 h3 /\ ExtraerTiendaLinks.hex_group 4 h4
    /\ ExtraerTiendaLinks.hex_group 12 h5.
Proof.
  unfold ExtraerTiendaLinks.GUID_RE_fullmatch, ExtraerTiendaLinks.bind. split.
  - destruct (ExtraerTiendaLinks.hex_run 8 s) as [r1|] eqn:E1; [|discriminate].
    destruct (ExtraerTiendaLinks.dash r1) as [r2|] eqn:D1; [|discriminate].
    destruct (ExtraerTiendaLinks.hex_run 4 r2) as [r3|] eqn:E2; [|discriminate].
    destruct (ExtraerTiendaLinks.dash r3) as [r4|] eqn:D2; [|discriminate].
    destruct (ExtraerTiendaLinks.hex_run 4 r4) as [r5|] eqn:E3; [|discriminate].
    destruct (ExtraerTiendaLinks.dash r5) as [r6|] eqn:D3; [|discriminate].
    destruct (ExtraerTiendaLinks.hex_run 4 r6) as [r7|] eqn:E4; [|discriminate].
    destruct (ExtraerTiendaLinks.dash r7) as [r8|] eqn:D4; [|discriminate].
    destruct (ExtraerTiendaLinks.hex_run 12 r8) as [r9|] eqn:E5; [|discriminate].
    destruct r9; [|discriminate]. intros _.
    apply hex_run_Some in E1, E2, E3, E4, E5.
    apply dash_Some in D1, D2, D3, D4.
    destruct E1 as [h1 [-> G1]], E2 as [h2 [-> G2]], E3 as [h3 [-> G3]],
      E4 as [h4 [-> G4]], E5 as [h5 [-> G5]].
    subst. exists h1, h2, h3, h4, h5.
    replace (h5 ++ EmptyString)%string with h5
      by (clear; induction h5; simpl; congruence).
    auto 10.
  - intros [h1 [h2 [h3 [h4 [h5 [-> [G1 [G2 [G3 [G4 G5]]]]]]]]]].
    assert (R : forall n h r, ExtraerTiendaLinks.hex_group n h ->
                ExtraerTiendaLinks.hex_run n (h ++ r)%string = Some r).
    { intros n h r G. apply hex_run_Some. now exists h. }
    rewrite (R 8 h1) by assumption. cbn [ExtraerTiendaLinks.dash].
    rewrite Ascii.eqb_refl, (R 4 h2) by assumption. cbn [ExtraerTiendaLinks.dash].
    rewrite Ascii.eqb_refl, (R 4 h3) by assumption. cbn [ExtraerTiendaLinks.dash].
    rewrite Ascii.eqb_refl, (R 4 h4) by assumption. cbn [ExtraerTiendaLinks.dash].
    rewrite Ascii.eqb_refl.
    replace h5 with (h5 ++ EmptyString)%string
      by (clear; induction h5; simpl; congruence).
    now rewrite (R 12 h5).
Qed.

Lemma prefix_head (a : ascii) (p v : string) :
  String.prefix (String a p) v = true -> exists r, v = String a r.
Proof.
  destruct v as [|b r]; simpl; [discriminate|].
  destruct (ascii_dec a b); [|discriminate]. subst. now exists r.
Qed.

(** A text that starts like a hyperlink formula is not a GUID, stripped or
    not: its first character is the equals sign. *)
Lemma formula_not_guid (v : string) :
  startswith_any v ["=HIPERVINCULO("%string; "=HYPERLINK("%string] = true ->
  ExtraerTiendaLinks.GUID_RE_fullmatch (strip v) = false.
Proof.
  unfold startswith_any, startswith. simpl. rewrite !orb_true_iff.
  intros H.
  assert (Hv : exists r, v = String "=" r).
  { destruct H as [H | [H | H]]; [| |discriminate];
      now apply prefix_head in H. }
  destruct Hv as [r ->]. unfold strip. simpl.
  destruct (rstrip r); reflexivity.
Qed.

Lemma step_hyperlink_spec (celda : ExtraerTiendaLinks.Cell) (t : string) :
  ExtraerTiendaLinks.step_hyperlink celda None = Some t <->
  exists h, ExtraerTiendaLinks.hyperlink celda = Some h
            /\ ExtraerTiendaLinks.target h = Some t /\ t <> EmptyString.
Proof.
  unfold ExtraerTiendaLinks.step_hyperlink. split.
  - destruct (ExtraerTiendaLinks.hyperlink celda) as [h|]; [|discriminate].
    destruct (ExtraerTiendaLinks.target h) as [t0|] eqn:Et; [|discriminate].
    destruct t0; simpl; [discriminate|]. intros H. inversion H; subst.
    exists h. repeat split; [exact Et | discriminate].
  - intros [h [-> [-> Hne]]]. destruct t; [contradiction | reflexivity].
Qed.

Lemma extract_url_precedence (celda : ExtraerTiendaLinks.Cell) :
  ExtraerTiendaLinks.extract_url celda
  = ExtraerTiendaLinks.url_by_precedence celda.
Proof.
  unfold ExtraerTiendaLinks.extract_url, ExtraerTiendaLinks.url_by_precedence,
    ExtraerTiendaLinks.step_guid, ExtraerTiendaLinks.step_formula.
  destruct (ExtraerTiendaLinks.step_hyperlink celda None) as [t|] eqn:Eh.
  - apply step_hyperlink_spec in Eh. destruct Eh as [_ [_ [_ Hne]]].
    assert (Ht : truthy t = true) by (destruct t; [contradiction | reflexivity]).
    destruct (ExtraerTiendaLinks.value celda); cbn [truthy_opt];
      try reflexivity.
    rewrite Ht. cbn [negb andb truthy_opt]. rewrite Ht. reflexivity.
  - destruct (ExtraerTiendaLinks.value celda) as [|v|];
      cbn [truthy_opt negb andb]; try reflexivity.
    destruct (startswith_any v ["=HIPERVINCULO("%string; "=HYPERLINK("%string])
      eqn:Ef.
    + rewrite (formula_not_guid v Ef), andb_false_r. reflexivity.
    + cbn [truthy_opt negb andb].
      now destruct (ExtraerTiendaLinks.GUID_RE_fullmatch (strip v)).
Qed.

(** C9. The URL of a row follows one precedence: the target of the cell's
    hyperlink when the cell has one with a non-empty target; otherwise,
    for a text that starts with one of the two formula names, the first
    quoted http(s) URL of the formula; otherwise, for a text whose stripped
    value is a GUID, the fixed prefix followed by the stripped value;
    otherwise none, and then the row adds no pair. *)
Theorem C9_url_precedence :
  forall celda : ExtraerTiendaLinks.Cell,
    ExtraerTiendaLinks.extract_url celda
    = ExtraerTiendaLinks.url_by_precedence celda
    /\ (forall t,
           ExtraerTiendaLinks.step_hyperlink celda None = Some t <->
           exists h, ExtraerTiendaLinks.hyperlink celda = Some h
                     /\ ExtraerTiendaLinks.target h = Some t
                     /\ t <> EmptyString)
    /\ (forall v u,
           ExtraerTiendaLinks.extraer_url_de_formula v = Some u ->
           ExtraerTiendaLinks.first_quoted_url v u)
    /\ (forall v,
           ExtraerTiendaLinks.extraer_url_de_formula v = None ->
           ExtraerTiendaLinks.no_quoted_url v)
    /\ (forall s,
           ExtraerTiendaLinks.GUID_RE_fullmatch s = true <->
           exists h1 h2 h3 h4 h5,
             s = (h1 ++ String "-" (h2 ++ String "-" (h3 ++ String "-"
                   (h4 ++ String "-" h5))))%string
             /\ ExtraerTiendaLinks.hex_group 8 h1
             /\ ExtraerTiendaLinks.hex_group 4 h2
             /\ ExtraerTiendaLinks.hex_group 4 h3
             /\ ExtraerTiendaLinks.hex_group 4 h4
             /\ ExtraerTiendaLinks.hex_group 12 h5)
    /\ (forall tienda,
           ExtraerTiendaLinks.extract_url celda = None ->
           ExtraerTiendaLinks.row_pairs (tienda, celda) = []).
Proof.
  intros celda. split; [apply extract_url_precedence|].
  split; [apply step_hyperlink_spec|].
  split; [exact extraer_url_Some|].
  split; [exact extraer_url_None|].
  split; [exact GUID_RE_fullmatch_spec|].
  intros tienda H. unfold ExtraerTiendaLinks.row_pairs. simpl. now rewrite H.
Qed.

(* ===================================================================== *)
(** * Comparison of two store sets *)
(* ===================================================================== *)

Lemma sorted_set_In (l : list string) (x : string) :
  In x (SetComparator.sorted_set l) <-> In x l.
Proof.
  unfold SetComparator.sorted_set. rewrite sort_by_In.
  apply unique_In, String.eqb_eq.
Qed.

Lemma sorted_set_sorted (l : list string) :
  StronglySorted str_lt (SetComparator.sorted_set l).
Proof.
  apply sorted_strict with (le := fun a b => String.leb a b = true).
  - intros a b. apply str_leb_iff.
  - apply sort_by_sorted; [apply String.leb_total | apply str_leb_trans].
  - apply sort_by_NoDup, unique_NoDup, String.eqb_eq.
Qed.

Lemma sorted_set_NoDup (l : list string) : NoDup (SetComparator.sorted_set l).
Proof. apply sort_by_NoDup, unique_NoDup, String.eqb_eq. Qed.

Lemma matched_In (A B : list string) (x : string) :
  In x (SetComparator.matched (SetComparator.compare A B)) <->
  In x A /\ In x B.
Proof.
  simpl. rewrite sorted_set_In, filter_In, mem_In. tauto.
Qed.

Lemma onlyA_In (A B : list string) (x : string) :
  In x (SetComparator.onlyA (SetComparator.compare A B)) <->
  In x A /\ ~ In x B.
Proof.
  simpl. rewrite sorted_set_In, filter_In, negb_true_iff, mem_not_In. tauto.
Qed.

Lemma onlyB_In (A B : list string) (x : string) :
  In x (SetComparator.onlyB (SetComparator.compare A B)) <->
  In x B /\ ~ In x A.
Proof.
  simpl. rewrite sorted_set_In, filter_In, negb_true_iff, mem_not_In. tauto.
Qed.

(** C6. For all finite sets of store names A and B, the three sequences of
    [compare A B] hold the members of A ∩ B, of A − B and of B − A; each is
    strictly ascending in the code-point order, hence without repetition;
    no member of matched or onlyA is in onlyB; and the three together hold
    exactly the members of A ∪ B. *)
Theorem C6_compare_partition :
  forall A B : SetComparator.StoreSet,
    let r := SetComparator.compare A B in
    (forall x, In x (SetComparator.matched r) <-> In x A /\ In x B)
    /\ (forall x, In x (SetComparator.onlyA r) <-> In x A /\ ~ In x B)
    /\ (forall x, In x (SetComparator.onlyB r) <-> In x B /\ ~ In x A)
    /\ StronglySorted str_lt (SetComparator.matched r)
    /\ StronglySorted str_lt (SetComparator.onlyA r)
    /\ StronglySorted str_lt (SetComparator.onlyB r)
    /\ NoDup (SetComparator.matched r)
    /\ NoDup (SetComparator.onlyA r)
    /\ NoDup (SetComparator.onlyB r)
    /\ (forall x, In x (SetComparator.matched r) \/ In x (SetComparator.onlyA r)
                  -> ~ In x (SetComparator.onlyB r))
    /\ (forall x, In x (SetComparator.matched r) \/ In x (SetComparator.onlyA r)
                  \/ In x (SetComparator.onlyB r)
                  <-> In x A \/ In x B).
Proof.
  intros A B r. unfold r.
  split; [apply matched_In|]. split; [apply onlyA_In|].
  split; [apply onlyB_In|].
  split; [apply sorted_set_sorted|]. split; [apply sorted_set_sorted|].
  split; [apply sorted_set_sorted|].
  split; [apply sorted_set_NoDup|]. split; [apply sorted_set_NoDup|].
  split; [apply sorted_set_NoDup|].
  split; intros x; rewrite matched_In, onlyA_In, onlyB_In; [tauto|].
  assert (D : forall l, In x l \/ ~ In x l).
  { intros l. destruct (mem x l) eqn:E;
      [left; now apply mem_In | right; now apply mem_not_In]. }
  destruct (D A), (D B); tauto.
Qed.

(** The stores A = {Store A, Store B} and B = {Store B, Store C}. *)
Example compare_scenario :
  SetComparator.compare ["Store A"; "Store B"]%string ["Store B"; "Store C"]%string
  = {| SetComparator.matched := ["Store B"%string];
       SetComparator.onlyA := ["Store A"%string];
       SetComparator.onlyB := ["Store C"%string] |}.
Proof. reflexivity. Qed.

(* ===================================================================== *)
(** * The scripts on small sheets *)
(* ===================================================================== *)

Example pares_unicos_example :
  DedupPorTienda.pares_unicos
    [(DedupPorTienda.Val " Store B", DedupPorTienda.Val "http://y ");
     (DedupPorTienda.Val "Store A", DedupPorTienda.Val "http://z");
     (DedupPorTienda.NaN, DedupPorTienda.Val "http://lost");
     (DedupPorTienda.Val "Store A", DedupPorTienda.NaN);
     (DedupPorTienda.Val "Store A", DedupPorTienda.Val "   ");
     (DedupPorTienda.Val "Store A", DedupPorTienda.Val "http://x");
     (DedupPorTienda.Val "Store B ", DedupPorTienda.Val "http://y")]
  = [("Store A", "http://x"); ("Store A", "http://z"); ("Store B", "http://y")]%string.
Proof. reflexivity. Qed.

Example links_por_tienda_example :
  DedupPorTienda.links_por_tienda
    [("Store A", "http://x"); ("Store A", "http://z"); ("Store B", "http://y")]%string
  = [("Store A"%string,
      (2, ("http://x" ++ DedupPorTienda.LF ++ "http://z")%string));
     ("Store B"%string, (1, "http://y"%string))].
Proof. reflexivity. Qed.

Example uno_por_tienda_example :
  DedupPorTienda.uno_por_tienda
    [("Store A", "http://x"); ("Store A", "http://z"); ("Store B", "http://y")]%string
  = [("Store A", "http://x"); ("Store B", "http://y")]%string.
Proof. reflexivity. Qed.

Example autodetect_scans_values :
  DedupPorTienda.autodetect_link_column
    [("tienda"%string, [DedupPorTienda.Val "Store A"]);
     ("nota"%string, [DedupPorTienda.NaN; DedupPorTienda.Val "ver HTTPS://x/1"]);
     ("otra"%string, [DedupPorTienda.Val "http://y"])]
    DedupPorTienda.PREFER_COLS
  = DedupPorTienda.Ok "nota".
Proof. reflexivity. Qed.

Example autodetect_fails :
  DedupPorTienda.autodetect_link_column
    [("tienda"%string, [DedupPorTienda.Val "Store A"]);
     ("nota"%string, [DedupPorTienda.NaN; DedupPorTienda.Val "ftp://x"])]
    DedupPorTienda.PREFER_COLS
  = DedupPorTienda.ValueError.
Proof. reflexivity. Qed.

Example extract_url_hyperlink_first :
  ExtraerTiendaLinks.extract_url
    {| ExtraerTiendaLinks.value :=
         ExtraerTiendaLinks.VStr "0123abcd-0a0a-FFFF-1234-0123456789ab";
       ExtraerTiendaLinks.hyperlink :=
         Some {| ExtraerTiendaLinks.target := Some "http://real"%string |} |}
  = Some "http://real"%string.
Proof. reflexivity. Qed.

Example extract_url_formula :
  ExtraerTiendaLinks.extract_url
    {| ExtraerTiendaLinks.value :=
         ExtraerTiendaLinks.VStr
           ("=HIPERVINCULO(" ++ String ExtraerTiendaLinks.DQUOTE "Https://a/b"
              ++ String ExtraerTiendaLinks.DQUOTE ";"
              ++ String ExtraerTiendaLinks.DQUOTE "http://c"
              ++ String ExtraerTiendaLinks.DQUOTE ")")%string;
       ExtraerTiendaLinks.hyperlink := None |}
  = Some "Https://a/b"%string.
Proof. reflexivity. Qed.

Example extract_url_guid :
  ExtraerTiendaLinks.extract_url
    {| ExtraerTiendaLinks.value :=
         ExtraerTiendaLinks.VStr " 0123abcd-0a0a-FFFF-1234-0123456789ab ";
       ExtraerTiendaLinks.hyperlink :=
         Some {| ExtraerTiendaLinks.target := None |} |}
  = Some (ExtraerTiendaLinks.URL_PREFIX
            ++ "0123abcd-0a0a-FFFF-1234-0123456789ab")%string.
Proof. reflexivity. Qed.

Example df_group_example :
  ExtraerTiendaLinks.df_group
    (ExtraerTiendaLinks.df_unique
       [(ExtraerTiendaLinks.VStr "Store B",
         {| ExtraerTiendaLinks.value := ExtraerTiendaLinks.VNone;
            ExtraerTiendaLinks.hyperlink :=
              Some {| ExtraerTiendaLinks.target := Some "http://y"%string |} |});
        (ExtraerTiendaLinks.VNone,
         {| ExtraerTiendaLinks.value := ExtraerTiendaLinks.VNone;
            ExtraerTiendaLinks.hyperlink :=
              Some {| ExtraerTiendaLinks.target := Some "http://lost"%string |} |});
        (ExtraerTiendaLinks.VOther "17" true,
         {| ExtraerTiendaLinks.value := ExtraerTiendaLinks.VOther "3.5" true;
            ExtraerTiendaLinks.hyperlink := None |});
        (ExtraerTiendaLinks.VStr "Store B",
         {| ExtraerTiendaLinks.value := ExtraerTiendaLinks.VNone;
            ExtraerTiendaLinks.hyperlink :=
              Some {| ExtraerTiendaLinks.target := Some "http://a"%string |} |})])
  = [("Store B"%string,
      ("http://a" ++ String (ascii_of_N 10) "http://y")%string)].
Proof. reflexivity. Qed.

(* ===================================================================== *)
(** * Further properties of the cleaning *)
(* ===================================================================== *)

Lemma all_space_app (a b : string) :
  all_space (a ++ b)%string = all_space a && all_space b.
Proof.
  induction a as [|c a IH]; simpl; [reflexivity|].
  now rewrite IH, andb_assoc.
Qed.

Lemma lstrip_all_space (s : string) :
  all_space s = true -> lstrip s = EmptyString.
Proof.
  induction s as [|c s IH]; simpl; [reflexivity|].
  destruct (isspace c); [exact IH | discriminate].
Qed.

Lemma rstrip_all_space (s : string) :
  all_space s = true -> rstrip s = EmptyString.
Proof.
  induction s as [|c s IH]; simpl; [reflexivity|].
  destruct (isspace c) eqn:E; [|discriminate].
  simpl. intros H. now rewrite (IH H).
Qed.

Lemma strip_empty_iff (s : string) :
  strip s = EmptyString <-> all_space s = true.
Proof.
  split.
  - intros H. destruct (strip_spec s) as [pre [post [E [Hp [Hq _]]]]].
    rewrite H in E. simpl in E. rewrite E, all_space_app, Hp, Hq. reflexivity.
  - intros H. unfold strip. now rewrite (lstrip_all_space s H).
Qed.

Lemma lstrip_id (s : string) :
  (forall c, head_char s = Some c -> isspace c = false) -> lstrip s = s.
Proof.
  destruct s as [|c s]; simpl; [reflexivity|].
  intros H. now rewrite (H c eq_refl).
Qed.

Lemma rstrip_id (s : string) :
  (forall c, last_char s = Some c -> isspace c = false) -> rstrip s = s.
Proof.
  induction s as [|c s IH]; simpl; [reflexivity|].
  intros H. destruct (last_char s) as [d|] eqn:El.
  - rewrite IH by exact H. destruct s; [discriminate | reflexivity].
  - assert (Es : s = EmptyString).
    { destruct s as [|e s']; [reflexivity|]. simpl in El.
      destruct (last_char s'); discriminate. }
    subst s. simpl. now rewrite (H c eq_refl).
Qed.

(** Stripping a stripped text changes nothing. *)
Lemma strip_idem (s : string) : strip (strip s) = strip s.
Proof.
  destruct (strip_spec s) as [_ [_ [_ [_ [_ [Hh Hl]]]]]].
  unfold strip at 1. rewrite (lstrip_id _ Hh). now apply rstrip_id.
Qed.

Lemma dedup_twice (P : list LinkPair) : dedup (dedup P) = dedup P.
Proof.
  unfold dedup at 1. unfold drop_duplicates.
  rewrite (unique_id pair_eqb pair_eqb_eq) by apply dedup_NoDup.
  apply sort_by_sorted_id, dedup_sorted_leb.
Qed.

Lemma limpieza_cons_val (s l : string) (base : DedupPorTienda.Base) :
  DedupPorTienda.limpieza
    ((DedupPorTienda.Val s, DedupPorTienda.Val l) :: base)
  = if String.eqb (strip l) EmptyString
    then DedupPorTienda.limpieza base
    else (strip s, strip l) :: DedupPorTienda.limpieza base.
Proof.
  unfold DedupPorTienda.limpieza, DedupPorTienda.nonempty_link,
    DedupPorTienda.strip_columns, DedupPorTienda.dropna.
  simpl. now destruct (String.eqb (strip l) EmptyString).
Qed.

Lemma limpieza_as_cells (L : list LinkPair) :
  (forall p, In p L ->
             strip (fst p) = fst p /\ strip (snd p) = snd p
             /\ snd p <> EmptyString) ->
  DedupPorTienda.limpieza (DedupPorTienda.as_cells L) = L.
Proof.
  induction L as [|[s l] L IH]; intros H; [reflexivity|].
  destruct (H (s, l) (or_introl eq_refl)) as [Hs [Hl Hne]]. simpl in Hs, Hl, Hne.
  unfold DedupPorTienda.as_cells. cbn [map fst snd].
  rewrite limpieza_cons_val, Hs, Hl.
  apply String.eqb_neq in Hne. rewrite Hne.
  fold (DedupPorTienda.as_cells L). rewrite IH; [reflexivity|].
  intros p Hp. apply H. now right.
Qed.

(** X1. A row of the sheet is kept by the cleaning exactly when both cells
    are present and the link has a character that is not whitespace; what
    is kept is the pair of the two stripped texts. *)
Theorem X1_pares_unicos_rows :
  forall (base : DedupPorTienda.Base) (p : LinkPair),
    In p (DedupPorTienda.pares_unicos base) <->
    exists s l, In (DedupPorTienda.Val s, DedupPorTienda.Val l) base
                /\ p = (strip s, strip l) /\ all_space l = false.
Proof.
  intros base p. unfold DedupPorTienda.pares_unicos.
  rewrite dedup_In, limpieza_In. split; intros [s [l [Hin [E H]]]];
    exists s, l; repeat split; auto.
  - destruct (all_space l) eqn:A; [|reflexivity].
    exfalso. apply H. now apply strip_empty_iff.
  - intros Hs. apply strip_empty_iff in Hs. congruence.
Qed.

(** X2. Cleaning and de-duplicating a frame that holds already cleaned
    pairs gives these pairs back: the block under "Limpieza" followed by
    the de-duplication is idempotent. *)
Theorem X2_cleaning_idempotent :
  forall base : DedupPorTienda.Base,
    DedupPorTienda.limpieza
      (DedupPorTienda.as_cells (DedupPorTienda.limpieza base))
    = DedupPorTienda.limpieza base
    /\ DedupPorTienda.pares_unicos
         (DedupPorTienda.as_cells (DedupPorTienda.pares_unicos base))
       = DedupPorTienda.pares_unicos base.
Proof.
  intros base.
  assert (Hc : forall p, In p (DedupPorTienda.limpieza base) ->
                 strip (fst p) = fst p /\ strip (snd p) = snd p
                 /\ snd p <> EmptyString).
  { intros p Hp. apply limpieza_In in Hp.
    destruct Hp as [s [l [_ [-> Hne]]]]. simpl.
    rewrite !strip_idem. auto. }
  split; [now apply limpieza_as_cells|].
  unfold DedupPorTienda.pares_unicos at 1.
  rewrite limpieza_as_cells.
  - apply dedup_twice.
  - intros p Hp. apply Hc. unfold DedupPorTienda.pares_unicos in Hp.
    exact (proj1 (dedup_In _ _) Hp).
Qed.

(* ===================================================================== *)
(** * Further properties of the de-duplication and of the counts *)
(* ===================================================================== *)

(** X3. The result of [dedup] depends only on which rows occur in the
    frame, not on their order or on how often they occur. *)
Theorem X3_dedup_order_independent :
  forall P Q : list LinkPair,
    (forall p, In p P <-> In p Q) -> dedup P = dedup Q.
Proof.
  intros P Q H. apply dedup_canonical; [apply dedup_sorted|].
  intros p. rewrite dedup_In. apply H.
Qed.

Lemma X3_dedup_order_independent_witness :
  (forall p : LinkPair,
      In p [("b", "1"); ("a", "2"); ("b", "1")]%string
      <-> In p [("a", "2"); ("b", "1")]%string)
  /\ dedup [("b", "1"); ("a", "2"); ("b", "1")]%string
     = dedup [("a", "2"); ("b", "1")]%string.
Proof.
  assert (H : forall p : LinkPair,
             In p [("b", "1"); ("a", "2"); ("b", "1")]%string
             <-> In p [("a", "2"); ("b", "1")]%string).
  { intros p. simpl. tauto. }
  split; [exact H|].
  exact (X3_dedup_order_independent _ _ H).
Defined.

Lemma unique_from_length {A : Type} (eqb : A -> A -> bool) (seen l : list A) :
  List.length (unique_from eqb seen l) <= List.length l.
Proof.
  revert seen. induction l as [|x r IH]; intros seen; simpl; [lia|].
  destruct (existsb (eqb x) seen); simpl.
  - specialize (IH seen). lia.
  - specialize (IH (x :: seen)). lia.
Qed.

Lemma sort_by_length {A : Type} (leb : A -> A -> bool) (l : list A) :
  List.length (sort_by leb l) = List.length l.
Proof. symmetry. apply Permutation_length, sort_by_perm. Qed.

Lemma dedup_length (P : list LinkPair) : List.length (dedup P) <= List.length P.
Proof.
  unfold dedup, sort_values, drop_duplicates, unique.
  rewrite sort_by_length. apply unique_from_length.
Qed.

Lemma limpieza_length (base : DedupPorTienda.Base) :
  List.length (DedupPorTienda.limpieza base) <= List.length base.
Proof.
  unfold DedupPorTienda.limpieza, DedupPorTienda.nonempty_link,
    DedupPorTienda.strip_columns, DedupPorTienda.dropna.
  eapply Nat.le_trans; [apply filter_length_le|].
  rewrite length_map. apply filter_length_le.
Qed.

Lemma group_keys_length (df : list LinkPair) :
  List.length (group_keys df) <= List.length df.
Proof.
  unfold group_keys, unique. rewrite sort_by_length.
  eapply Nat.le_trans; [apply unique_from_length|]. now rewrite length_map.
Qed.

Lemma links_por_tienda_keys (pares : list LinkPair) :
  map fst (DedupPorTienda.links_por_tienda pares) = group_keys pares.
Proof.
  rewrite links_por_tienda_groups, group_by_store_groupby, !map_map. simpl.
  rewrite <- groupby_keys. reflexivity.
Qed.

Lemma links_por_tienda_length (pares : list LinkPair) :
  List.length (DedupPorTienda.links_por_tienda pares)
  = List.length (group_keys pares).
Proof. now rewrite <- links_por_tienda_keys, length_map. Qed.

Lemma column_length (df : DedupPorTienda.DataFrame) (c : string) :
  (forall col, In col df ->
               List.length (snd col) = DedupPorTienda.nrows df) ->
  List.length (DedupPorTienda.column df c) <= DedupPorTienda.nrows df.
Proof.
  intros H. unfold DedupPorTienda.column.
  destruct (find (fun col => String.eqb (fst col) c) df) as [col|] eqn:E.
  - apply find_some in E. destruct E as [Hin _]. rewrite (H col Hin). lia.
  - simpl. lia.
Qed.

(** X4. In the summary sheet of a rectangular frame the three counts are
    ordered: stores with a link, unique pairs, original rows; and there is
    no store exactly when there is no pair. *)
Theorem X4_resumen_counts :
  forall (df : DedupPorTienda.DataFrame) (libro : DedupPorTienda.Libro),
    (forall col, In col df ->
                 List.length (snd col) = DedupPorTienda.nrows df) ->
    DedupPorTienda.main df = inl libro ->
    let r := DedupPorTienda.hoja_resumen libro in
    DedupPorTienda.tiendas_con_al_menos_un_link r
      <= DedupPorTienda.n_pares_unicos r
    /\ DedupPorTienda.n_pares_unicos r <= DedupPorTienda.filas_originales r
    /\ (DedupPorTienda.tiendas_con_al_menos_un_link r = 0
        <-> DedupPorTienda.n_pares_unicos r = 0).
Proof.
  intros df libro Hrect Hmain. unfold DedupPorTienda.main in Hmain.
  destruct (DedupPorTienda.autodetect_link_column df DedupPorTienda.PREFER_COLS)
    as [link_col|]; [|discriminate].
  destruct (negb (mem DedupPorTienda.COL_TIENDA (DedupPorTienda.columns df)));
    [discriminate|].
  inversion Hmain; subst libro; clear Hmain. cbn.
  set (base := DedupPorTienda.select_base df link_col).
  rewrite links_por_tienda_length.
  assert (Hk := group_keys_length (DedupPorTienda.pares_unicos base)).
  split; [exact Hk|]. split.
  - unfold DedupPorTienda.pares_unicos.
    eapply Nat.le_trans; [apply dedup_length|].
    eapply Nat.le_trans; [apply limpieza_length|].
    unfold base, DedupPorTienda.select_base. rewrite length_combine.
    eapply Nat.le_trans; [apply Nat.le_min_l|]. now apply column_length.
  - split; [|intros H0; lia].
    intros H0. destruct (DedupPorTienda.pares_unicos base) as [|p U] eqn:E;
      [reflexivity|].
    exfalso.
    assert (Hin : In (fst p) (group_keys (p :: U))).
    { apply group_keys_In. now left. }
    destruct (group_keys (p :: U)); [contradiction | discriminate].
Qed.

Lemma X4_resumen_counts_witness :
  let df : DedupPorTienda.DataFrame :=
    [("tienda"%string,
      [DedupPorTienda.Val "A"; DedupPorTienda.Val "A"; DedupPorTienda.NaN]);
     ("link"%string,
      [DedupPorTienda.Val "http://x"; DedupPorTienda.Val "http://x";
       DedupPorTienda.Val "http://y"])] in
  exists libro,
    DedupPorTienda.main df = inl libro
    /\ DedupPorTienda.tiendas_con_al_menos_un_link
         (DedupPorTienda.hoja_resumen libro) = 1
    /\ DedupPorTienda.n_pares_unicos (DedupPorTienda.hoja_resumen libro) = 1
    /\ DedupPorTienda.filas_originales (DedupPorTienda.hoja_resumen libro) = 3
    /\ DedupPorTienda.tiendas_con_al_menos_un_link
         (DedupPorTienda.hoja_resumen libro)
       <= DedupPorTienda.n_pares_unicos (DedupPorTienda.hoja_resumen libro).
Proof.
  intros df. eexists. split; [reflexivity|].
  split; [reflexivity|]. split; [reflexivity|]. split; [reflexivity|].
  refine (proj1 (X4_resumen_counts df _ _ eq_refl)).
  intros col Hin. simpl in Hin.
  destruct Hin as [<- | [<- | []]]; reflexivity.
Defined.

Lemma list_sum_map_add {A : Type} (f g : A -> nat) (l : list A) :
  list_sum (map (fun x => f x + g x) l)
  = list_sum (map f l) + list_sum (map g l).
Proof. induction l as [|x r IH]; simpl; [reflexivity | lia]. Qed.

Lemma indicator_sum (x : string) (ks : list string) :
  NoDup ks ->
  list_sum (map (fun k => if String.eqb x k then 1 else 0) ks)
  = if mem x ks then 1 else 0.
Proof.
  induction 1 as [|k ks Hk Hnd IH]; simpl; [reflexivity|].
  rewrite IH. destruct (String.eqb x k) eqn:E; simpl; [|reflexivity].
  apply String.eqb_eq in E. subst k.
  apply mem_not_In in Hk. now rewrite Hk.
Qed.

(** The groups of a list of distinct keys that covers the stores of the
    frame share out its rows. *)
Lemma group_sizes_sum (ks : list string) (df : list LinkPair) :
  NoDup ks ->
  (forall p, In p df -> In (fst p) ks) ->
  list_sum (map (fun k => List.length (group_rows k df)) ks) = List.length df.
Proof.
  intros Hnd. induction df as [|p df IH]; intros Hcov.
  - clear Hnd Hcov. induction ks as [|k ks IH]; simpl; [reflexivity | exact IH].
  - rewrite (map_ext _ (fun k => (if String.eqb (fst p) k then 1 else 0)
                                 + List.length (group_rows k df))).
    + rewrite list_sum_map_add, indicator_sum by exact Hnd.
      rewrite IH by (intros q Hq; apply Hcov; now right).
      assert (Hm : mem (fst p) ks = true).
      { apply mem_In. apply Hcov. now left. }
      rewrite Hm. reflexivity.
    + intros k. unfold group_rows. simpl.
      now destruct (String.eqb (fst p) k).
Qed.

Lemma groupby_sizes_sum (df : list LinkPair) :
  list_sum (map (fun g => List.length (snd g)) (groupby df)) = List.length df.
Proof.
  unfold groupby, groups_of. rewrite map_map. simpl.
  apply group_sizes_sum; [apply group_keys_NoDup|].
  intros p Hp. apply group_keys_In. now apply in_map.
Qed.

Lemma links_por_tienda_unique_pairs (U : list LinkPair) :
  NoDup U ->
  DedupPorTienda.links_por_tienda U
  = map (fun g => (fst g, (List.length (snd g), join DedupPorTienda.LF (snd g))))
        (groupby U).
Proof.
  intros H. now rewrite links_por_tienda_groups, group_by_store_unique_pairs.
Qed.

(** X5. In the sheet of links per store, every store has at least one
    unique link, its count is the number of its rows among the unique
    pairs, and the counts of all stores add up to the number of unique
    pairs. *)
Theorem X5_links_unicos_counts :
  forall base : DedupPorTienda.Base,
    let U := DedupPorTienda.pares_unicos base in
    let T := DedupPorTienda.links_por_tienda U in
    list_sum (map (fun r => fst (snd r)) T) = List.length U
    /\ (forall s n txt, In (s, (n, txt)) T ->
          1 <= n
          /\ n = List.length (filter (fun p => String.eqb (fst p) s) U)).
Proof.
  intros base U T. unfold T.
  rewrite links_por_tienda_unique_pairs by apply dedup_NoDup.
  split.
  - rewrite map_map. simpl. apply groupby_sizes_sum.
  - intros s n txt Hin. apply in_map_iff in Hin.
    destruct Hin as [[k ls] [E Hg]]. simpl in E. inversion E; subst. clear E.
    apply groupby_In in Hg. destruct Hg as [Hk ->].
    split.
    + apply in_map_iff in Hk. destruct Hk as [[s' l] [Es Hp]].
      simpl in Es. subst s'. apply group_rows_In in Hp.
      destruct (group_rows s U); [contradiction | simpl; lia].
    + unfold group_rows. now rewrite length_map.
Qed.

(** X6. The sheet with one link per store lists the same stores, in the
    same order, as the sheet of links per store. *)
Theorem X6_uno_por_tienda_same_stores :
  forall base : DedupPorTienda.Base,
    let U := DedupPorTienda.pares_unicos base in
    map fst (DedupPorTienda.uno_por_tienda U)
    = map fst (DedupPorTienda.links_por_tienda U).
Proof.
  intros base U. unfold DedupPorTienda.uno_por_tienda, U,
    DedupPorTienda.pares_unicos.
  rewrite sort_values_dedup, groupby_first_keys, links_por_tienda_keys.
  reflexivity.
Qed.

(* ===================================================================== *)
(** * The outcome of [main] in dedup_por_tienda.py *)
(* ===================================================================== *)

Lemma autodetect_ValueError (df : DedupPorTienda.DataFrame)
      (prefer : list string) :
  DedupPorTienda.autodetect_link_column df prefer = DedupPorTienda.ValueError
  <-> (forall x, In x prefer -> ~ In x (DedupPorTienda.columns df))
      /\ (forall col, In col df ->
                      DedupPorTienda.column_has_url (snd col) = false).
Proof.
  unfold DedupPorTienda.autodetect_link_column.
  rewrite <- first_preferred_None, <- first_url_column_None.
  destruct (DedupPorTienda.first_preferred (DedupPorTienda.columns df) prefer).
  - split; [discriminate|]. intros [H _]. discriminate.
  - destruct (DedupPorTienda.first_url_column df); split;
      try discriminate; auto.
    intros [_ H]. discriminate.
Qed.

Lemma autodetect_Ok_column (df : DedupPorTienda.DataFrame)
      (prefer : list string) (c : string) :
  DedupPorTienda.autodetect_link_column df prefer = DedupPorTienda.Ok c ->
  In c (DedupPorTienda.columns df).
Proof.
  unfold DedupPorTienda.autodetect_link_column.
  destruct (DedupPorTienda.first_preferred (DedupPorTienda.columns df) prefer)
    as [c0|] eqn:Ep.
  - intros H. inversion H; subst.
    apply first_preferred_Some in Ep. now destruct Ep as [_ [_ [_ [Hc _]]]].
  - destruct (DedupPorTienda.first_url_column df) as [c1|] eqn:Eu;
      [|discriminate].
    intros H. inversion H; subst.
    apply first_url_column_Some in Eu. destruct Eu as [d1 [vals [d2 [-> _]]]].
    unfold DedupPorTienda.columns. rewrite map_app. apply in_or_app.
    right. now left.
Qed.

(** X7. [main] stops with the error about the link column exactly when no
    preferred name is a column and no column holds a URL; with the error
    about the store column exactly when a link column was found and
    "tienda" is not a column; otherwise it writes the workbook, and then
    both labels it selects from the sheet are columns of the sheet and the
    sheet of unique pairs is the cleaned, de-duplicated selection. *)
Theorem X7_main_outcome :
  forall df : DedupPorTienda.DataFrame,
    (DedupPorTienda.main df = inr DedupPorTienda.NoLinkColumn
     <-> (forall x, In x DedupPorTienda.PREFER_COLS ->
                    ~ In x (DedupPorTienda.columns df))
         /\ (forall col, In col df ->
                         DedupPorTienda.column_has_url (snd col) = false))
    /\ (DedupPorTienda.main df = inr DedupPorTienda.NoTiendaColumn
        <-> DedupPorTienda.autodetect_link_column df DedupPorTienda.PREFER_COLS
            <> DedupPorTienda.ValueError
            /\ ~ In DedupPorTienda.COL_TIENDA (DedupPorTienda.columns df))
    /\ (forall libro,
           DedupPorTienda.main df = inl libro ->
           let link_col :=
             DedupPorTienda.columna_usada_para_link
               (DedupPorTienda.hoja_resumen libro) in
           In DedupPorTienda.COL_TIENDA (DedupPorTienda.columns df)
           /\ In link_col (DedupPorTienda.columns df)
           /\ DedupPorTienda.hoja_pares_unicos libro
              = DedupPorTienda.pares_unicos
                  (DedupPorTienda.select_base df link_col)).
Proof.
  intros df. rewrite <- autodetect_ValueError. unfold DedupPorTienda.main.
  destruct (DedupPorTienda.autodetect_link_column df DedupPorTienda.PREFER_COLS)
    as [c|] eqn:Ea.
  - apply autodetect_Ok_column in Ea.
    destruct (mem DedupPorTienda.COL_TIENDA (DedupPorTienda.columns df)) eqn:Em;
      simpl.
    + apply mem_In in Em. repeat split; try discriminate.
      * intros [_ H]. contradiction.
      * exact Em.
      * inversion H; subst. exact Ea.
      * inversion H; subst. reflexivity.
    + apply mem_not_In in Em. repeat split; try discriminate; auto.
  - repeat split; try discriminate; auto.
    intros [H _]. now contradiction H.
Qed.

Lemma column_of_empty (df : DedupPorTienda.DataFrame) (c : string) :
  (forall col, In col df -> snd col = []) -> DedupPorTienda.column df c = [].
Proof.
  intros H. unfold DedupPorTienda.column.
  destruct (find (fun col => String.eqb (fst col) c) df) as [col|] eqn:E;
    [|reflexivity].
  apply find_some in E. now apply H.
Qed.

(** X8. On a sheet without data rows, [main] fails for want of a link
    column exactly when no preferred name is a column (there is no value to
    scan for a URL); when it succeeds, every sheet it writes is empty and
    every count is zero. *)
Theorem X8_main_empty_sheet :
  forall df : DedupPorTienda.DataFrame,
    (forall col, In col df -> snd col = []) ->
    (DedupPorTienda.main df = inr DedupPorTienda.NoLinkColumn
     <-> forall x, In x DedupPorTienda.PREFER_COLS ->
                   ~ In x (DedupPorTienda.columns df))
    /\ (forall libro,
           DedupPorTienda.main df = inl libro ->
           DedupPorTienda.hoja_pares_unicos libro = []
           /\ DedupPorTienda.hoja_links_por_tienda libro = []
           /\ DedupPorTienda.hoja_1link_por_tienda libro = Some []
           /\ DedupPorTienda.n_pares_unicos
                (DedupPorTienda.hoja_resumen libro) = 0
           /\ DedupPorTienda.tiendas_con_al_menos_un_link
                (DedupPorTienda.hoja_resumen libro) = 0).
Proof.
  intros df Hempty. split.
  - assert (E : DedupPorTienda.main df = inr DedupPorTienda.NoLinkColumn
                <-> DedupPorTienda.autodetect_link_column
                      df DedupPorTienda.PREFER_COLS
                    = DedupPorTienda.ValueError).
    { unfold DedupPorTienda.main.
      destruct (DedupPorTienda.autodetect_link_column
                  df DedupPorTienda.PREFER_COLS).
      - destruct (negb (mem DedupPorTienda.COL_TIENDA
                            (DedupPorTienda.columns df)));
          split; discriminate.
      - split; reflexivity. }
    rewrite E, autodetect_ValueError. split; [now intros [H _]|].
    intros H. split; [exact H|].
    intros col Hin. now rewrite (Hempty col Hin).
  - intros libro Hmain. unfold DedupPorTienda.main in Hmain.
    destruct (DedupPorTienda.autodetect_link_column
                df DedupPorTienda.PREFER_COLS) as [c|]; [|discriminate].
    destruct (negb (mem DedupPorTienda.COL_TIENDA (DedupPorTienda.columns df)));
      [discriminate|].
    inversion Hmain; subst libro; clear Hmain. cbn.
    unfold DedupPorTienda.select_base.
    rewrite (column_of_empty df DedupPorTienda.COL_TIENDA Hempty).
    repeat split.
Qed.

Lemma X8_main_empty_sheet_witness :
  let df : DedupPorTienda.DataFrame :=
    [("tienda"%string, []); ("link"%string, [])] in
  (forall col, In col df -> snd col = [])
  /\ exists libro,
       DedupPorTienda.main df = inl libro
       /\ DedupPorTienda.hoja_pares_unicos libro = [].
Proof.
  intros df.
  assert (H : forall col, In col df -> snd col = []).
  { intros col Hin. simpl in Hin. destruct Hin as [<- | [<- | []]]; reflexivity. }
  split; [exact H|].
  eexists. split; [reflexivity|].
  exact (proj1 (proj2 (X8_main_empty_sheet df H) _ eq_refl)).
Defined.

(* ===================================================================== *)
(** * Further properties of the workbook extraction *)
(* ===================================================================== *)

Lemma run_loop_from (rows : list ExtraerTiendaLinks.Row)
      (acc : ExtraerTiendaLinks.Acc) :
  ExtraerTiendaLinks.pares (fold_left ExtraerTiendaLinks.loop_body rows acc)
  = ExtraerTiendaLinks.pares acc
    ++ flat_map ExtraerTiendaLinks.row_pairs rows
  /\ map ExtraerTiendaLinks.url_detectada
       (ExtraerTiendaLinks.diag
          (fold_left ExtraerTiendaLinks.loop_body rows acc))
     = map ExtraerTiendaLinks.url_detectada (ExtraerTiendaLinks.diag acc)
       ++ map (fun row => ExtraerTiendaLinks.extract_url (snd row)) rows.
Proof.
  revert acc. induction rows as [|row rows IH]; intros acc; simpl.
  - now rewrite !app_nil_r.
  - destruct (IH (ExtraerTiendaLinks.loop_body acc row)) as [Hp Hd].
    rewrite Hp, Hd. simpl. rewrite map_app. simpl.
    now rewrite <- !app_assoc.
Qed.




Lemma url_body_nonempty (u : string) :
  ExtraerTiendaLinks.url_body u = true -> truthy u = true.
Proof. destruct u; [discriminate | reflexivity]. Qed.

Lemma extraer_url_truthy (v u : string) :
  ExtraerTiendaLinks.extraer_url_de_formula v = Some u -> truthy u = true.
Proof.
  intros H. apply extraer_url_Some in H.
  destruct H as [_ [rest [_ [[_ [_ [_ B]]] _]]]].
  now apply url_body_nonempty.
Qed.

Lemma extract_url_truthy (celda : ExtraerTiendaLinks.Cell) (u : string) :
  ExtraerTiendaLinks.extract_url celda = Some u -> truthy u = true.
Proof.
  rewrite extract_url_precedence. unfold ExtraerTiendaLinks.url_by_precedence.
  destruct (ExtraerTiendaLinks.step_hyperlink celda None) as [t|] eqn:Eh.
  - intros H. inversion H; subst.
    apply step_hyperlink_spec in Eh. destruct Eh as [_ [_ [_ Hne]]].
    destruct u; [contradiction | reflexivity].
  - destruct (ExtraerTiendaLinks.value celda) as [|v|]; try discriminate.
    destruct (startswith_any v ["=HIPERVINCULO("%string; "=HYPERLINK("%string]).
    + apply extraer_url_truthy.
    + destruct (ExtraerTiendaLinks.GUID_RE_fullmatch (strip v));
        [|discriminate].
      intros H. inversion H. reflexivity.
Qed.

(** X10. A detected URL is never the empty text, whichever branch found it;
    so a row adds a pair exactly when its store value is truthy and a URL
    was detected, and the test of the URL in the loop never rejects one. *)
Theorem X10_detected_url_not_empty :
  forall (tienda : ExtraerTiendaLinks.pyvalue) (celda : ExtraerTiendaLinks.Cell),
    (forall u, ExtraerTiendaLinks.extract_url celda = Some u ->
               u <> EmptyString)
    /\ ExtraerTiendaLinks.row_pairs (tienda, celda)
       = match ExtraerTiendaLinks.extract_url celda with
         | Some u =>
             if ExtraerTiendaLinks.value_truthy tienda
             then [(strip (ExtraerTiendaLinks.str_of tienda), strip u)]
             else []
         | None => []
         end.
Proof.
  intros tienda celda. split.
  - intros u H Hu. apply extract_url_truthy in H. subst u. discriminate.
  - unfold ExtraerTiendaLinks.row_pairs. simpl.
    destruct (ExtraerTiendaLinks.extract_url celda) as [u|] eqn:E;
      [|reflexivity].
    rewrite (extract_url_truthy celda u E), andb_true_r. reflexivity.
Qed.

Lemma prefix_app (p x : string) : String.prefix p (p ++ x)%string = true.
Proof.
  induction p as [|a p IH]; simpl; [now destruct x|].
  destruct (ascii_dec a a); [exact IH | contradiction].
Qed.

(** The search passes over a text without double quote. *)
Lemma extraer_url_skip (pre rest : string) :
  ExtraerTiendaLinks.until_quote pre = None ->
  ExtraerTiendaLinks.extraer_url_de_formula
    (pre ++ String ExtraerTiendaLinks.DQUOTE rest)%string
  = match ExtraerTiendaLinks.quoted_url_at rest with
    | Some u => Some u
    | None => ExtraerTiendaLinks.extraer_url_de_formula rest
    end.
Proof.
  induction pre as [|a pre IH];
    cbn [String.append ExtraerTiendaLinks.extraer_url_de_formula
         ExtraerTiendaLinks.until_quote].
  - intros _. now rewrite Ascii.eqb_refl.
  - destruct (Ascii.eqb a ExtraerTiendaLinks.DQUOTE); [discriminate|].
    intros H. apply IH.
    now destruct (ExtraerTiendaLinks.until_quote pre).
Qed.

(** X11. Writing a URL as the first quoted argument of a hyperlink formula
    and reading the cell back gives the URL: for a URL without double
    quote that starts with http:// or https:// (any case) and goes on for
    at least one character, whatever follows its closing quote. *)
Theorem X11_formula_round_trip :
  forall name u post : string,
    In name ["=HIPERVINCULO("%string; "=HYPERLINK("%string] ->
    ExtraerTiendaLinks.until_quote u = None ->
    ExtraerTiendaLinks.url_body u = true ->
    ExtraerTiendaLinks.extract_url
      {| ExtraerTiendaLinks.value :=
           ExtraerTiendaLinks.VStr
             (name ++ String ExtraerTiendaLinks.DQUOTE
                        (u ++ String ExtraerTiendaLinks.DQUOTE post))%string;
         ExtraerTiendaLinks.hyperlink := None |}
    = Some u.
Proof.
  intros name u post Hname Hq Hb.
  rewrite extract_url_precedence. unfold ExtraerTiendaLinks.url_by_precedence.
  cbn [ExtraerTiendaLinks.step_hyperlink ExtraerTiendaLinks.hyperlink
       ExtraerTiendaLinks.value].
  assert (Hs : startswith_any
                 (name ++ String ExtraerTiendaLinks.DQUOTE
                            (u ++ String ExtraerTiendaLinks.DQUOTE post))%string
                 ["=HIPERVINCULO("%string; "=HYPERLINK("%string] = true).
  { unfold startswith_any, startswith. cbn [existsb].
    destruct Hname as [<- | [<- | []]]; rewrite prefix_app;
      [reflexivity | apply orb_true_r]. }
  rewrite Hs.
  assert (Hn : ExtraerTiendaLinks.until_quote name = None).
  { destruct Hname as [<- | [<- | []]]; reflexivity. }
  rewrite (extraer_url_skip _ _ Hn).
  assert (Hu : ExtraerTiendaLinks.quoted_url_at
                 (u ++ String ExtraerTiendaLinks.DQUOTE post)%string = Some u).
  { apply quoted_url_at_spec. exists post. auto. }
  now rewrite Hu.
Qed.

Lemma X11_formula_round_trip_witness :
  In "=HYPERLINK("%string ["=HIPERVINCULO("%string; "=HYPERLINK("%string]
  /\ ExtraerTiendaLinks.until_quote "https://a.b/c" = None
  /\ ExtraerTiendaLinks.url_body "https://a.b/c" = true
  /\ ExtraerTiendaLinks.extract_url
       {| ExtraerTiendaLinks.value :=
            ExtraerTiendaLinks.VStr
              ("=HYPERLINK(" ++ String ExtraerTiendaLinks.DQUOTE
                 ("https://a.b/c" ++ String ExtraerTiendaLinks.DQUOTE ")"))%string;
          ExtraerTiendaLinks.hyperlink := None |}
     = Some "https://a.b/c"%string.
Proof.
  assert (H1 : In "=HYPERLINK("%string
                  ["=HIPERVINCULO("%string; "=HYPERLINK("%string]).
  { simpl. right. left. reflexivity. }
  split; [exact H1|]. split; [reflexivity|]. split; [reflexivity|].
  exact (X11_formula_round_trip "=HYPERLINK(" "https://a.b/c" ")"
           H1 eq_refl eq_refl).
Defined.

Lemma is_hex_not_space (c : ascii) :
  ExtraerTiendaLinks.is_hex c = true -> isspace c = false.
Proof.
  destruct c as [[|] [|] [|] [|] [|] [|] [|] [|]]; vm_compute;
    intros H; solve [reflexivity | discriminate H].
Qed.

Lemma hex_run_none_space (n : nat) (s r : string) :
  ExtraerTiendaLinks.hex_run n s = Some r ->
  ExtraerTiendaLinks.none_space r = true ->
  ExtraerTiendaLinks.none_space s = true
  /\ String.length s = n + String.length r.
Proof.
  revert s. induction n as [|n IH]; intros s;
    cbn [ExtraerTiendaLinks.hex_run].
  - intros H Hr. inversion H; subst. auto.
  - destruct s as [|a s]; [discriminate|].
    destruct (ExtraerTiendaLinks.is_hex a) eqn:Ea; [|discriminate].
    intros H Hr. destruct (IH s H Hr) as [Hs Hl].
    cbn [ExtraerTiendaLinks.none_space String.length].
    rewrite (is_hex_not_space a Ea), Hs, Hl. auto.
Qed.

Lemma dash_none_space (s r : string) :
  ExtraerTiendaLinks.dash s = Some r ->
  ExtraerTiendaLinks.none_space r = true ->
  ExtraerTiendaLinks.none_space s = true
  /\ String.length s = 1 + String.length r.
Proof.
  intros H Hr. apply dash_Some in H. subst s.
  cbn [ExtraerTiendaLinks.none_space String.length]. rewrite Hr. auto.
Qed.

(** A GUID has 36 characters, none of them whitespace. *)
Lemma guid_shape (g : string) :
  ExtraerTiendaLinks.GUID_RE_fullmatch g = true ->
  ExtraerTiendaLinks.none_space g = true /\ String.length g = 36.
Proof.
  unfold ExtraerTiendaLinks.GUID_RE_fullmatch, ExtraerTiendaLinks.bind.
  destruct (ExtraerTiendaLinks.hex_run 8 g) as [r1|] eqn:E1; [|discriminate].
  destruct (ExtraerTiendaLinks.dash r1) as [r2|] eqn:D1; [|discriminate].
  destruct (ExtraerTiendaLinks.hex_run 4 r2) as [r3|] eqn:E2; [|discriminate].
  destruct (ExtraerTiendaLinks.dash r3) as [r4|] eqn:D2; [|discriminate].
  destruct (ExtraerTiendaLinks.hex_run 4 r4) as [r5|] eqn:E3; [|discriminate].
  destruct (ExtraerTiendaLinks.dash r5) as [r6|] eqn:D3; [|discriminate].
  destruct (ExtraerTiendaLinks.hex_run 4 r6) as [r7|] eqn:E4; [|discriminate].
  destruct (ExtraerTiendaLinks.dash r7) as [r8|] eqn:D4; [|discriminate].
  destruct (ExtraerTiendaLinks.hex_run 12 r8) as [r9|] eqn:E5; [|discriminate].
  destruct r9; [|discriminate]. intros _.
  destruct (hex_run_none_space _ _ _ E5 eq_refl) as [N8 L8].
  destruct (dash_none_space _ _ D4 N8) as [N7 L7].
  destruct (hex_run_none_space _ _ _ E4 N7) as [N6 L6].
  destruct (dash_none_space _ _ D3 N6) as [N5 L5].
  destruct (hex_run_none_space _ _ _ E3 N5) as [N4 L4].
  destruct (dash_none_space _ _ D2 N4) as [N3 L3].
  destruct (hex_run_none_space _ _ _ E2 N3) as [N2 L2].
  destruct (dash_none_space _ _ D1 N2) as [N1 L1].
  destruct (hex_run_none_space _ _ _ E1 N1) as [N0 L0].
  split; [exact N0|]. simpl in *. lia.
Qed.

Lemma none_space_last (s : string) (c : ascii) :
  ExtraerTiendaLinks.none_space s = true ->
  last_char s = Some c -> isspace c = false.
Proof.
  induction s as [|a s IH]; simpl; [discriminate|].
  rewrite andb_true_iff, negb_true_iff. intros [Ha Hs].
  destruct (last_char s) as [d|].
  - intros H. apply IH; [exact Hs | exact H].
  - intros H. inversion H; subst. exact Ha.
Qed.

Lemma lstrip_app_space (pre s : string) :
  all_space pre = true -> lstrip (pre ++ s)%string = lstrip s.
Proof.
  induction pre as [|a pre IH]; simpl; [reflexivity|].
  destruct (isspace a); [exact IH | discriminate].
Qed.

Lemma rstrip_app_space (s post : string) :
  all_space post = true -> rstrip (s ++ post)%string = rstrip s.
Proof.
  intros H. induction s as [|a s IH]; simpl.
  - now apply rstrip_all_space.
  - now rewrite IH.
Qed.

(** Blanks around a text without whitespace are all that [strip] removes. *)
Lemma strip_padded (pre g post : string) :
  all_space pre = true -> all_space post = true ->
  ExtraerTiendaLinks.none_space g = true ->
  strip (pre ++ g ++ post)%string = g.
Proof.
  intros Hp Hq Hg. unfold strip. rewrite (lstrip_app_space _ _ Hp).
  destruct g as [|a g].
  - simpl. rewrite (lstrip_all_space _ Hq). reflexivity.
  - assert (Ha : isspace a = false).
    { simpl in Hg. apply andb_true_iff in Hg. destruct Hg as [Ha _].
      now apply negb_true_iff. }
    cbn [String.append lstrip]. rewrite Ha.
    change (String a (g ++ post)%string) with (String a g ++ post)%string.
    rewrite (rstrip_app_space _ _ Hq). apply rstrip_id.
    intros c. now apply none_space_last.
Qed.

(** X12. A cell without hyperlink whose text is a GUID, with or without
    blanks around it, yields the fixed prefix followed by the GUID alone;
    a GUID has exactly 36 characters. *)
Theorem X12_guid_with_blanks :
  forall pre g post : string,
    all_space pre = true -> all_space post = true ->
    ExtraerTiendaLinks.GUID_RE_fullmatch g = true ->
    String.length g = 36
    /\ ExtraerTiendaLinks.extract_url
         {| ExtraerTiendaLinks.value :=
              ExtraerTiendaLinks.VStr (pre ++ g ++ post)%string;
            ExtraerTiendaLinks.hyperlink := None |}
       = Some (ExtraerTiendaLinks.URL_PREFIX ++ g)%string.
Proof.
  intros pre g post Hp Hq Hg.
  destruct (guid_shape g Hg) as [Hn Hl]. split; [exact Hl|].
  assert (Hs : strip (pre ++ g ++ post)%string = g)
    by now apply strip_padded.
  rewrite extract_url_precedence. unfold ExtraerTiendaLinks.url_by_precedence.
  cbn [ExtraerTiendaLinks.step_hyperlink ExtraerTiendaLinks.hyperlink
       ExtraerTiendaLinks.value].
  destruct (startswith_any (pre ++ g ++ post)%string
              ["=HIPERVINCULO("%string; "=HYPERLINK("%string]) eqn:Ef.
  - apply formula_not_guid in Ef. rewrite Hs in Ef. congruence.
  - now rewrite Hs, Hg.
Qed.

Lemma X12_guid_with_blanks_witness :
  all_space " " = true
  /\ all_space (String (ascii_of_N 10) EmptyString) = true
  /\ ExtraerTiendaLinks.GUID_RE_fullmatch
       "0123abcd-0a0a-FFFF-1234-0123456789ab" = true
  /\ String.length "0123abcd-0a0a-FFFF-1234-0123456789ab" = 36
  /\ ExtraerTiendaLinks.extract_url
       {| ExtraerTiendaLinks.value :=
            ExtraerTiendaLinks.VStr
              (" " ++ "0123abcd-0a0a-FFFF-1234-0123456789ab"
                   ++ String (ascii_of_N 10) EmptyString)%string;
          ExtraerTiendaLinks.hyperlink := None |}
     = Some (ExtraerTiendaLinks.URL_PREFIX
               ++ "0123abcd-0a0a-FFFF-1234-0123456789ab")%string.
Proof.
  split; [reflexivity|]. split; [reflexivity|]. split; [reflexivity|].
  exact (X12_guid_with_blanks " " "0123abcd-0a0a-FFFF-1234-0123456789ab"
           (String (ascii_of_N 10) EmptyString) eq_refl eq_refl eq_refl).
Defined.

(** X13. For any rows, de-duplicated or not, the dictionary of the
    extraction script holds the stores in order of first appearance, each
    with the links of its rows in row order; after sorting, the stores are
    strictly ascending and the groups together hold as many links as there
    are rows. *)
Theorem X13_agrupado_any_rows :
  forall U : list LinkPair,
    map fst (ExtraerTiendaLinks.agrupado U) = unique String.eqb (map fst U)
    /\ (forall t ls, In (t, ls) (ExtraerTiendaLinks.agrupado U) ->
          ls = map snd (filter (fun p => String.eqb (fst p) t) U))
    /\ StronglySorted str_lt (map fst (ExtraerTiendaLinks.sorted_items U))
    /\ list_sum (map (fun it => List.length (snd it))
                     (ExtraerTiendaLinks.sorted_items U))
       = List.length U.
Proof.
  intros U. rewrite agrupado_groups, sorted_items_groupby. unfold groups_of.
  split; [|split; [|split]].
  - rewrite map_map. simpl. apply map_id.
  - intros t ls Hin. apply in_map_iff in Hin.
    destruct Hin as [k [E _]]. inversion E; subst. reflexivity.
  - rewrite groupby_keys. apply group_keys_sorted.
  - apply groupby_sizes_sum.
Qed.

(* ===================================================================== *)
(** * The order of the sheet rows does not matter *)
(* ===================================================================== *)

(** X14. Reordering the rows of the input sheet changes neither the unique
    pairs of the pandas script nor the unique pairs and the groups of the
    extraction script. *)
Theorem X14_row_order_irrelevant :
  forall (base base' : DedupPorTienda.Base)
         (rows rows' : list ExtraerTiendaLinks.Row),
    Permutation base base' ->
    Permutation rows rows' ->
    DedupPorTienda.pares_unicos base = DedupPorTienda.pares_unicos base'
    /\ ExtraerTiendaLinks.df_unique rows = ExtraerTiendaLinks.df_unique rows'
    /\ ExtraerTiendaLinks.df_group (ExtraerTiendaLinks.df_unique rows)
       = ExtraerTiendaLinks.df_group (ExtraerTiendaLinks.df_unique rows').
Proof.
  intros base base' rows rows' Hb Hr.
  assert (E1 : DedupPorTienda.pares_unicos base
               = DedupPorTienda.pares_unicos base').
  { unfold DedupPorTienda.pares_unicos.
    apply dedup_canonical; [apply dedup_sorted|].
    intros p. rewrite dedup_In, !limpieza_In.
    split; intros [s [l [Hin H]]]; exists s, l; split; auto.
    - eapply Permutation_in; [exact Hb | exact Hin].
    - eapply Permutation_in; [symmetry; exact Hb | exact Hin]. }
  assert (E2 : ExtraerTiendaLinks.df_unique rows
               = ExtraerTiendaLinks.df_unique rows').
  { unfold ExtraerTiendaLinks.df_unique, ExtraerTiendaLinks.run_loop.
    destruct (run_loop_from rows
                {| ExtraerTiendaLinks.pares := [];
                   ExtraerTiendaLinks.diag := [] |}) as [-> _].
    destruct (run_loop_from rows'
                {| ExtraerTiendaLinks.pares := [];
                   ExtraerTiendaLinks.diag := [] |}) as [-> _].
    simpl. apply dedup_canonical; [apply dedup_sorted|].
    intros p. rewrite dedup_In, !in_flat_map.
    split; intros [row [Hin H]]; exists row; split; auto.
    - eapply Permutation_in; [exact Hr | exact Hin].
    - eapply Permutation_in; [symmetry; exact Hr | exact Hin]. }
  split; [exact E1|]. split; [exact E2|]. now rewrite E2.
Qed.

Lemma X14_row_order_irrelevant_witness :
  let r1 := (DedupPorTienda.Val "B", DedupPorTienda.Val "http://y") in
  let r2 := (DedupPorTienda.Val "A", DedupPorTienda.Val "http://x") in
  let c1 : ExtraerTiendaLinks.Row :=
    (ExtraerTiendaLinks.VStr "B",
     {| ExtraerTiendaLinks.value := ExtraerTiendaLinks.VNone;
        ExtraerTiendaLinks.hyperlink :=
          Some {| ExtraerTiendaLinks.target := Some "http://y"%string |} |}) in
  let c2 : ExtraerTiendaLinks.Row :=
    (ExtraerTiendaLinks.VStr "A",
     {| ExtraerTiendaLinks.value := ExtraerTiendaLinks.VNone;
        ExtraerTiendaLinks.hyperlink :=
          Some {| ExtraerTiendaLinks.target := Some "http://x"%string |} |}) in
  Permutation [r1; r2] [r2; r1]
  /\ Permutation [c1; c2] [c2; c1]
  /\ DedupPorTienda.pares_unicos [r1; r2] = DedupPorTienda.pares_unicos [r2; r1]
  /\ ExtraerTiendaLinks.df_unique [c1; c2] = ExtraerTiendaLinks.df_unique [c2; c1].
Proof.
  intros r1 r2 c1 c2.
  assert (H1 : Permutation [r1; r2] [r2; r1]) by apply perm_swap.
  assert (H2 : Permutation [c1; c2] [c2; c1]) by apply perm_swap.
  split; [exact H1|]. split; [exact H2|].
  destruct (X14_row_order_irrelevant _ _ _ _ H1 H2) as [E1 [E2 _]].
  split; [exact E1 | exact E2].
Defined.
